(** * newlogme: activity aggregation, range summaries and categorisation

    A shallow embedding of the TypeScript sources

      - [site-template/src/components/tracker/shared.ts]
        ([calculateAppDurations]),
      - [site-template/backend-lib/tracker-db.ts]
        ([getAvailableDates], [getOverview], [getAppUsageForDate]),
      - [site-template/server.ts] (the [GET /api/tracker/overview] route),

    and of the categorizer of the specification, which has no source here;
    followed by the properties of the specification that concern them.

    The code around them is embedded as well: [formatDuration] of shared.ts,
    [getDayData], [addNote] and [saveBlog] of tracker-db.ts, and what the
    components compute from these results before drawing ([CategoryStats],
    [CategoryPieChart], [HackingStreak], the Overview page and the day
    view); its properties form the last part of the file.

    Modelling conventions.

      - A JavaScript [number] is an exact rational ([Q]); IEEE rounding is
        abstracted.  Statements about numbers use [==] ([Qeq]).
      - A string is the sequence of its UTF-8 bytes.
      - [new Date(ts).getTime()] is the field [timestamp : Z] of a
        [WindowEvent], the number of milliseconds since the epoch; strings
        that do not parse as dates (NaN) are outside the model.  A stored
        TIMESTAMP has no zone, and [new Date] reads its text in the zone of
        the browser; where events come from the database the offset of
        that zone is taken to be constant, and the properties of
        [getDayData] are stated on the stored timestamps.
      - The object [durations] of [calculateAppDurations] is an ordinary
        object whose prototype is [Object.prototype]: its own properties
        are kept in creation order, a read falls back on the properties it
        inherits ([constructor], [toString], [__proto__], ...), and
        [Object.entries] lists array-index keys first, in ascending numeric
        order, then the other keys in creation order.  What [+] makes of an
        inherited value is a text; it is kept as the list of its pieces.
      - [Array.prototype.sort] is stable; it is an insertion sort here.
        A comparator that answers NaN is read as answering 0.
      - A DuckDB table is the list of its rows; DATE values are day numbers,
        TIMESTAMP values are milliseconds, and all columns read by the
        queries are NOT NULL. *)

From Stdlib Require Import List ZArith NArith QArith Qminmax String Ascii Bool.
From Stdlib Require Import Lia Lqa Permutation Sorted Arith Qround.
From Stdlib Require DecimalString DecimalPos DecimalZ.
Import ListNotations.

Set Implicit Arguments.

(** ** Stable sorting *)

Module StableSort.
Section Defs.
Variable A : Type.
(** [before x y]: [x] may stay in front of [y]. *)
Variable before : A -> A -> bool.

Fixpoint insert (x : A) (l : list A) : list A :=
  match l with
  | [] => [x]
  | y :: l' => if before x y then x :: l else y :: insert x l'
  end.

Definition sort (l : list A) : list A := fold_right insert [] l.
End Defs.

(** [arr.sort(cmp)]: [x] stays in front of [y] when [cmp(x, y) <= 0]. *)
Definition sort_by (A : Type) (cmp : A -> A -> Q) : list A -> list A :=
  sort (fun x y => Qle_bool (cmp x y) 0).

(** [arr.sort(cmp)] for a comparator that may answer NaN ([None]), which
    [sort] reads as 0.  When the answers are not those of an ordering, the
    language leaves the order of the result to the engine; the result of
    the insertion sort is then one of the admissible orders. *)
Definition sort_cmp (A : Type) (cmp : A -> A -> option Q)
    : list A -> list A :=
  sort (fun x y =>
          match cmp x y with
          | Some v => Qle_bool v 0
          | None => true
          end).
End StableSort.

(** ** Ordinary objects used as [Record<string, number>] *)

Module JsObject.

(** What a read finds under a key inherited from [Object.prototype]: the
    function that the prototype holds under the key [name], or, for the
    accessor [__proto__], the prototype itself. *)
Inductive origin :=
| Function (name : string)
| ObjectPrototype.

(** A piece of a text: the decimal text of a number, or the text that [+]
    makes of an [origin] (the source text of a function, or
    ["[object Object]"]). *)
Inductive piece :=
| Numeral (q : Q)
| Source (o : origin).

(** The primitive values met here: a number, or a text that [+] has built
    from numbers and at least one origin.  [Text before o after] is the text
    of the numbers [before], followed by that of [o] and of the pieces
    [after].  Such a text is neither empty nor the text of a number. *)
Inductive prim :=
| Num (q : Q)
| Text (before : list Q) (o : origin) (after : list piece).

(** The result of a read. *)
Inductive value :=
| Undefined
| Prim (p : prim)
| Object (o : origin).

(** [Number(p)], [None] for NaN. *)
Definition toNumber (p : prim) : option Q :=
  match p with
  | Num q => Some q
  | Text _ _ _ => None
  end.

(** [x + y] on primitive values: the sum of two numbers, the concatenation
    of the two texts otherwise. *)
Definition plus (x y : prim) : prim :=
  match x, y with
  | Num p, Num q => Num (p + q)
  | Num p, Text before o after => Text (p :: before) o after
  | Text before o after, Num q => Text before o (after ++ [Numeral q])
  | Text before o after, Text before' o' after' =>
      Text before o (after ++ map Numeral before' ++ Source o' :: after')
  end.

(** Own properties, oldest first. *)
Definition t := list (string * prim).

(** [{}]. *)
Definition empty : t := [].

(** The function-valued properties of [Object.prototype]. *)
Definition functions : list string :=
  ["constructor"; "hasOwnProperty"; "isPrototypeOf"; "propertyIsEnumerable";
   "toLocaleString"; "toString"; "valueOf"; "__defineGetter__";
   "__defineSetter__"; "__lookupGetter__"; "__lookupSetter__"]%string.

(** What an object without an own property [k] inherits for it. *)
Definition inherited (k : string) : option origin :=
  if String.eqb k "__proto__" then Some ObjectPrototype
  else if existsb (String.eqb k) functions then Some (Function k)
  else None.

Fixpoint own (o : t) (k : string) : option prim :=
  match o with
  | [] => None
  | (k', v) :: o' => if String.eqb k' k then Some v else own o' k
  end.

(** [o[k]]. *)
Definition get (o : t) (k : string) : value :=
  match own o k with
  | Some p => Prim p
  | None =>
      match inherited k with
      | Some g => Object g
      | None => Undefined
      end
  end.

(** The own property [k] is given the value [v]: an existing property keeps
    its place, a new one is created last. *)
Fixpoint define (o : t) (k : string) (v : prim) : t :=
  match o with
  | [] => [(k, v)]
  | (k', v') :: o' =>
      if String.eqb k' k then (k', v) :: o' else (k', v') :: define o' k v
  end.

(** [o[k] = v] for a primitive [v].  The assignment reaches the setter of
    the inherited accessor [__proto__], which ignores a value that is not an
    object; every other key becomes or stays an own property. *)
Definition set (o : t) (k : string) (v : prim) : t :=
  match own o k with
  | Some _ => define o k v
  | None => if String.eqb k "__proto__" then o else define o k v
  end.

Definition digit (c : ascii) : option N :=
  let n := N_of_ascii c in
  if ((48 <=? n) && (n <=? 57))%N then Some (n - 48)%N else None.

Fixpoint digits (s : string) (acc : N) : option N :=
  match s with
  | EmptyString => Some acc
  | String c r =>
      match digit c with
      | Some d => digits r (10 * acc + d)%N
      | None => None
      end
  end.

(** A property key is an array index when it is the canonical decimal
    numeral of an integer in [0, 2^32 - 2]. *)
Definition arrayIndex (s : string) : option N :=
  match s with
  | EmptyString => None
  | String "0"%char EmptyString => Some 0%N
  | String "0"%char _ => None
  | _ =>
      match digits s 0 with
      | Some n => if (n <=? 4294967294)%N then Some n else None
      | None => None
      end
  end.

Definition isIndex (s : string) : bool :=
  match arrayIndex s with Some _ => true | None => false end.

Definition indexOf (k : string) : N :=
  match arrayIndex k with Some n => n | None => 0%N end.

(** The order in which the own keys [l], given in creation order, are
    enumerated: array indices in ascending numeric order, then the others
    as created. *)
Definition keyOrder (l : list string) : list string :=
  StableSort.sort (fun a b => (indexOf a <=? indexOf b)%N) (filter isIndex l)
  ++ filter (fun k => negb (isIndex k)) l.

(** [Object.entries(o)]. *)
Definition entries (o : t) : list (string * prim) :=
  StableSort.sort (fun a b => (indexOf (fst a) <=? indexOf (fst b))%N)
    (filter (fun kv => isIndex (fst kv)) o)
  ++ filter (fun kv => negb (isIndex (fst kv))) o.

End JsObject.

(** ** shared.ts *)

Module Shared.

Record WindowEvent := {
  timestamp : Z;
  app_name : string;
  window_title : option string;
  browser_url : option string
}.

(** An entry of the result.  The declared type of [duration] is [number];
    the value is what the loop left in the bucket. *)
Record AppDuration := { app : string; duration : JsObject.prim }.

Definition LOCKEDSCREEN : string := "__LOCKEDSCREEN".

(** [(x || 0) + c] for a number [c].  [undefined] and 0 count as 0; a
    function or an object is truthy and [+] turns it into its text. *)
Definition or0_plus (x : JsObject.value) (c : Q) : JsObject.prim :=
  match x with
  | JsObject.Undefined => JsObject.Num (0 + c)
  | JsObject.Prim (JsObject.Num v) =>
      JsObject.Num ((if Qeq_bool v 0 then 0 else v) + c)
  | JsObject.Prim (JsObject.Text before o after) =>
      JsObject.Text before o (after ++ [JsObject.Numeral c])
  | JsObject.Object o => JsObject.Text [] o [JsObject.Numeral c]
  end.

(** [Math.min(durationSecs, 30 * 60)] for the event at index [i]. *)
Definition cappedDuration (events : list WindowEvent) (i : nat) : Q :=
  match nth_error events i with
  | None => 0
  | Some ev =>
      let current := timestamp ev in
      let next :=
        match nth_error events (i + 1) with
        | Some ev' => timestamp ev'
        | None => current
        end in
      let durationSecs := inject_Z (next - current) / 1000 in
      Qmin durationSecs (30 * 60)
  end.

(** One iteration of the [for] loop. *)
Definition body (events : list WindowEvent) (durations : JsObject.t)
    (i : nat) : JsObject.t :=
  match nth_error events i with
  | None => durations
  | Some ev =>
      let app := app_name ev in
      JsObject.set durations app
        (or0_plus (JsObject.get durations app) (cappedDuration events i))
  end.

(** [durations] after the iterations [0 .. n-1]. *)
Definition loop (events : list WindowEvent) (n : nat) : JsObject.t :=
  fold_left (body events) (seq 0 n) JsObject.empty.

Definition accumulate (events : list WindowEvent) : JsObject.t :=
  loop events (List.length events).

(** [b[1] - a[1]], [None] for NaN. *)
Definition compare (a b : string * JsObject.prim) : option Q :=
  match JsObject.toNumber (snd b), JsObject.toNumber (snd a) with
  | Some y, Some x => Some (y - x)
  | _, _ => None
  end.

Definition calculateAppDurations (events : list WindowEvent)
    : list AppDuration :=
  map (fun kv => {| app := fst kv; duration := snd kv |})
    (StableSort.sort_cmp compare
       (filter (fun kv => negb (String.eqb (fst kv) LOCKEDSCREEN))
          (JsObject.entries (accumulate events)))).

End Shared.

(** ** backend-lib/tracker-db.ts *)

Module TrackerDb.

(** Rows of the tables [window_events] and [key_events]. *)
Record WindowRow := {
  w_timestamp : Z;
  w_app_name : string;
  w_window_title : option string;
  w_browser_url : option string;
  w_logical_date : Z
}.

Record KeyRow := {
  k_timestamp : Z;
  k_key_count : Z;
  k_logical_date : Z
}.

Record Database := {
  window_events : list WindowRow;
  key_events : list KeyRow
}.

Record DailySummary := {
  logical_date : Z;
  total_keys : Z;
  unique_apps : nat
}.

Record AppUsage := {
  app_name : string;
  duration_seconds : Q;
  event_count : nat
}.

(** SQL building blocks. *)

(** [SUM(...)]: NULL over no rows. *)
Definition sql_sum (l : list Z) : option Z :=
  match l with
  | [] => None
  | _ => Some (fold_right Z.add 0%Z l)
  end.

Definition COALESCE (x : option Z) (d : Z) : Z :=
  match x with Some v => v | None => d end.

Definition distinct_dates : list Z -> list Z := nodup Z.eq_dec.

Definition distinct_names : list string -> list string := nodup string_dec.

(** [ORDER BY logical_date DESC]. *)
Definition order_desc (A : Type) (key : A -> Z) : list A -> list A :=
  StableSort.sort (fun a b => (key b <=? key a)%Z).

(** [ORDER BY timestamp]. *)
Definition order_asc (A : Type) (key : A -> Z) : list A -> list A :=
  StableSort.sort (fun a b => (key a <=? key b)%Z).

(** [getAvailableDates]: the [logical_date] of each returned [DateInfo]; the
    [label] is a rendering of the same date and is not modelled. *)
Definition getAvailableDates (db : Database) : list Z :=
  order_desc (fun d => d)
    (distinct_dates
       (map w_logical_date (window_events db)
        ++ map k_logical_date (key_events db))).

(** [getDayData(logicalDate).window_events]: the rows of the day, ordered by
    timestamp, as the [WindowEvent]s handed to the tracker components.  The
    field [timestamp] is the stored one: the zone in which the browser
    reads it back is taken to have a constant offset, which the differences
    of timestamps do not see. *)
Definition toWindowEvent (w : WindowRow) : Shared.WindowEvent :=
  {| Shared.timestamp := w_timestamp w;
     Shared.app_name := w_app_name w;
     Shared.window_title :=
       match w_window_title w with
       | Some EmptyString => None
       | x => x
       end;
     Shared.browser_url :=
       match w_browser_url w with
       | Some EmptyString => None
       | x => x
       end |}.

Definition dayWindowEvents (db : Database) (logicalDate : Z)
    : list Shared.WindowEvent :=
  map toWindowEvent
    (order_asc w_timestamp
       (filter (fun w => (w_logical_date w =? logicalDate)%Z)
          (window_events db))).

(** The [WHERE] clause that [getOverview] assembles from [fromDate] and
    [toDate]; [None] stands for a missing or empty argument. *)
Definition in_range (fromDate toDate : option Z) (d : Z) : bool :=
  match fromDate with Some f => (f <=? d)%Z | None => true end
  && match toDate with Some t => (d <=? t)%Z | None => true end.

(** One output row of the grouped query, for the group [d]. *)
Definition summary_of (db : Database) (rows : list WindowRow) (d : Z)
    : DailySummary :=
  {| logical_date := d;
     total_keys :=
       COALESCE
         (sql_sum
            (map k_key_count
               (filter (fun k => (k_logical_date k =? d)%Z) (key_events db))))
         0;
     unique_apps :=
       List.length
         (distinct_names
            (map w_app_name
               (filter (fun w => (w_logical_date w =? d)%Z) rows))) |}.

(** The grouped and ordered rows, before [LIMIT]. *)
Definition overview_rows (db : Database) (fromDate toDate : option Z)
    : list DailySummary :=
  let rows :=
    filter (fun w => in_range fromDate toDate (w_logical_date w))
      (window_events db) in
  order_desc logical_date
    (map (summary_of db rows) (distinct_dates (map w_logical_date rows))).

(** [getOverview(fromDate, toDate, limit)].  The route passes limits in
    [1, 365] only; what the engine does with a negative [LIMIT] is not
    modelled ([Z.to_nat] reads it as 0). *)
Definition getOverview (db : Database) (fromDate toDate : option Z)
    (limit : Z) : list DailySummary :=
  firstn (Z.to_nat limit) (overview_rows db fromDate toDate).

(** [LEAD(timestamp) OVER (ORDER BY timestamp)] on rows already ordered. *)
Fixpoint lead (rows : list WindowRow) : list (string * Z * option Z) :=
  match rows with
  | [] => []
  | r :: rest =>
      (w_app_name r, w_timestamp r,
       match rest with
       | r' :: _ => Some (w_timestamp r')
       | [] => None
       end) :: lead rest
  end.

(** The [CASE] expression summed by [getAppUsageForDate]. *)
Definition case_duration (e : string * Z * option Z) : Q :=
  match snd e with
  | Some next_timestamp => inject_Z (next_timestamp - snd (fst e)) / 1000
  | None => 0
  end.

Definition event_durations (db : Database) (logicalDate : Z)
    : list (string * Z * option Z) :=
  lead
    (order_asc w_timestamp
       (filter (fun w => (w_logical_date w =? logicalDate)%Z)
          (window_events db))).

Definition usage_of (eds : list (string * Z * option Z)) (a : string)
    : AppUsage :=
  let group := filter (fun e => String.eqb (fst (fst e)) a) eds in
  {| app_name := a;
     duration_seconds := fold_right Qplus 0 (map case_duration group);
     event_count := List.length group |}.

(** [getAppUsageForDate(logicalDate)]. *)
Definition getAppUsageForDate (db : Database) (logicalDate : Z)
    : list AppUsage :=
  let eds := event_durations db logicalDate in
  StableSort.sort_by
    (fun a b => duration_seconds b - duration_seconds a)
    (map (usage_of eds)
       (distinct_names (map (fun e => fst (fst e)) eds))).

End TrackerDb.

(** ** server.ts: [GET /api/tracker/overview] *)

Module Server.

Inductive response (A : Type) : Type :=
| Json200 (body : A)
| Json400 (error : string)
| Json500 (error : string).
Arguments Json400 {A} error.
Arguments Json500 {A} error.

(** A [from] or [to] query parameter: missing (or empty), present but
    rejected by [DATE_REGEX], or a [YYYY-MM-DD] string read as a date. *)
Inductive query_date :=
| QAbsent
| QMalformed
| QDate (d : Z).

Definition rejected (q : query_date) : bool :=
  match q with QMalformed => true | _ => false end.

Definition date_arg (q : query_date) : option Z :=
  match q with QDate d => Some d | _ => None end.

(** The white space that [parseInt] skips, on the UTF-8 bytes of the
    string: TAB, LF, VT, FF, CR and SP in one byte; NBSP (U+00A0) in two;
    the space separators U+1680, U+2000 to U+200A, U+202F, U+205F and
    U+3000, the line and paragraph separators U+2028 and U+2029 and the
    byte order mark U+FEFF in three. *)
Definition isWhite (c : ascii) : bool :=
  let n := N_of_ascii c in
  ((9 <=? n) && (n <=? 13) || (n =? 32))%N.

Definition isWhite2 (c1 c2 : ascii) : bool :=
  ((N_of_ascii c1 =? 194) && (N_of_ascii c2 =? 160))%N.

Definition isWhite3 (c1 c2 c3 : ascii) : bool :=
  let a := N_of_ascii c1 in
  let b := N_of_ascii c2 in
  let c := N_of_ascii c3 in
  ((a =? 225) && ((b =? 154) && (c =? 128))
   || (a =? 226)
      && ((b =? 128)
          && ((128 <=? c) && (c <=? 138)
              || (c =? 168) || (c =? 169) || (c =? 175))
          || (b =? 129) && (c =? 159))
   || (a =? 227) && ((b =? 128) && (c =? 128))
   || (a =? 239) && ((b =? 187) && (c =? 191)))%N.

Fixpoint trimStart (s : string) : string :=
  match s with
  | String c1 r1 =>
      if isWhite c1 then trimStart r1
      else
        match r1 with
        | String c2 r2 =>
            if isWhite2 c1 c2 then trimStart r2
            else
              match r2 with
              | String c3 r3 =>
                  if isWhite3 c1 c2 c3 then trimStart r3 else s
              | EmptyString => s
              end
        | EmptyString => s
        end
  | EmptyString => s
  end.

(** The value of the longest prefix of decimal digits, [None] when that
    prefix is empty. *)
Fixpoint leadingDigits (s : string) (acc : Z) (seen : bool) : option Z :=
  match s with
  | String c r =>
      match JsObject.digit c with
      | Some d => leadingDigits r (10 * acc + Z.of_N d)%Z true
      | None => if seen then Some acc else None
      end
  | EmptyString => if seen then Some acc else None
  end.

(** [parseInt(s, 10)]: the integer that the digits denote, [None] for NaN.
    The number that [parseInt] returns is the double nearest to this
    integer, which is the integer itself up to 2^53 in magnitude. *)
Definition parseInt10 (s : string) : option Z :=
  match trimStart s with
  | String "-"%char r =>
      match leadingDigits r 0 false with
      | Some n => Some (- n)%Z
      | None => None
      end
  | String "+"%char r => leadingDigits r 0 false
  | r => leadingDigits r 0 false
  end.

(** [Math.min(Math.max(parseInt(q || "30", 10) || 30, 1), 365)].  The
    nearest double of an integer is 0 only for 0 and lies on the same side
    of 1 and of 365 as the integer, so that the limit is the same for
    both. *)
Definition limit_of_query (q : option string) : Z :=
  let s :=
    match q with
    | Some EmptyString | None => "30"%string
    | Some s => s
    end in
  let n :=
    match parseInt10 s with
    | Some 0%Z | None => 30%Z
    | Some n => n
    end in
  Z.min (Z.max n 1) 365.

(** The handler; [db = None] when the database file does not exist, in which
    case [withDB] throws and the [catch] answers 500. *)
Definition overview_route (db : option TrackerDb.Database)
    (from to : query_date) (limit : option string)
    : response (list TrackerDb.DailySummary) :=
  if rejected from then Json400 "Invalid 'from' date"
  else if rejected to then Json400 "Invalid 'to' date"
  else
    let limit := limit_of_query limit in
    match db with
    | Some d =>
        Json200 (TrackerDb.getOverview d (date_arg from) (date_arg to) limit)
    | None => Json500 "Failed to fetch overview"
    end.

End Server.

(** ** Categorizer *)

Module Categorizer.

Record CategoryRule := { pattern : string; category : string }.

Section Categorize.
(** [re_test p s]: the regular expression [p] matches somewhere in [s]. *)
Variable re_test : string -> string -> bool.

(** Modelled from the spec: the categorize operation is not among the
    sources; section 4.2 gives it as "iterate rules in configured order;
    evaluate each pattern as a regular expression against the subject
    string; return on first match", with "uncategorized" when none
    matches. *)
Fixpoint categorize (subject : string) (rules : list CategoryRule)
    : string :=
  match rules with
  | [] => "uncategorized"
  | r :: rest =>
      if re_test (pattern r) subject then category r
      else categorize subject rest
  end.
End Categorize.

(** Modelled from the spec: no regular-expression engine is among the
    sources.  [literal_test] covers the fragment that the examples of the
    spec use, alternatives of literal strings searched anywhere in the
    subject; the properties of [categorize] hold for any [re_test]. *)
Fixpoint alternatives (p : string) (cur : string) : list string :=
  match p with
  | EmptyString => [cur]
  | String c r =>
      if Ascii.eqb c "|" then cur :: alternatives r EmptyString
      else alternatives r (cur ++ String c EmptyString)
  end.

Fixpoint contains (lit s : string) : bool :=
  String.prefix lit s
  || match s with
     | EmptyString => false
     | String _ r => contains lit r
     end.

Definition literal_test (p s : string) : bool :=
  existsb (fun lit => contains lit s) (alternatives p EmptyString).

End Categorizer.

(** ** Vocabulary of the properties *)

Open Scope string_scope.
Open Scope list_scope.

(** The number that a value is, 0 for a text. *)
Definition seconds (p : JsObject.prim) : Q :=
  match p with
  | JsObject.Num q => q
  | JsObject.Text _ _ _ => 0
  end.

(** The running total of an application: the number in its own bucket, 0
    when it has none. *)
Definition total (o : JsObject.t) (a : string) : Q :=
  match JsObject.own o a with Some v => seconds v | None => 0 end.

Definition keys (o : JsObject.t) : list string := map fst o.

(** [o] has an own bucket for [a]. *)
Definition hasKey (o : JsObject.t) (a : string) : bool :=
  match JsObject.own o a with Some _ => true | None => false end.

Definition Qsum (l : list Q) : Q := fold_right Qplus 0 l.

(** The distinct elements of a list, each at its first occurrence. *)
Fixpoint first_occurrences (l : list string) : list string :=
  match l with
  | [] => []
  | a :: r => a :: filter (fun b => negb (String.eqb b a)) (first_occurrences r)
  end.

(** The capped gap of every pair of consecutive events. *)
Fixpoint capped_gaps (events : list Shared.WindowEvent) : list Q :=
  match events with
  | e :: (e' :: _) as rest =>
      Qmin (inject_Z (Shared.timestamp e' - Shared.timestamp e) / 1000) 1800
      :: capped_gaps rest
  | _ => []
  end.

(** Timestamps do not decrease along the sequence. *)
Fixpoint chronological (events : list Shared.WindowEvent) : bool :=
  match events with
  | e :: (e' :: _) as rest =>
      (Shared.timestamp e <=? Shared.timestamp e')%Z && chronological rest
  | _ => true
  end.

(** The sum of the output, with the zero of the open-ended last event, is
    the sum of the capped gaps of all consecutive pairs. *)
Definition sum_conserved (events : list Shared.WindowEvent) : Prop :=
  Qsum (map (fun x => seconds (Shared.duration x))
          (Shared.calculateAppDurations events)) + 0
  == Qsum (capped_gaps events).

Definition names (events : list Shared.WindowEvent) : list string :=
  map Shared.app_name events.

(** No application name is the name of a property of [Object.prototype]. *)
Definition ordinary (events : list Shared.WindowEvent) : bool :=
  forallb
    (fun a => match JsObject.inherited a with None => true | Some _ => false end)
    (names events).

(** Every duration is a number. *)
Definition numeric (out : list Shared.AppDuration) : Prop :=
  Forall (fun x => exists q, Shared.duration x = JsObject.Num q) out.

(** What iteration [i] adds to the bucket of application [a]. *)
Definition contribution (events : list Shared.WindowEvent) (a : string)
    (i : nat) : Q :=
  match nth_error events i with
  | Some e =>
      if String.eqb (Shared.app_name e) a then Shared.cappedDuration events i
      else 0
  | None => 0
  end.

(** The output entries whose duration equals [q], in output order. *)
Definition ties (q : Q) (out : list Shared.AppDuration) : list string :=
  map Shared.app
    (filter (fun x => Qeq_bool (seconds (Shared.duration x)) q) out).

(** Entries of equal duration come in the order in which their applications
    first occur in the input. *)
Definition ties_by_first_occurrence (events : list Shared.WindowEvent) : Prop :=
  forall q,
    ties q (Shared.calculateAppDurations events)
    = filter (fun a => Qeq_bool (total (Shared.accumulate events) a) q)
        (filter (fun a => negb (String.eqb a Shared.LOCKEDSCREEN))
           (first_occurrences (names events))).

(** Entries of equal duration come in the order in which the keys of
    [durations] are enumerated: those whose application name is an array
    index first, in ascending numeric order, then the others in the order in
    which their applications first occur in the input. *)
Definition ties_by_key_order (events : list Shared.WindowEvent) : Prop :=
  forall q,
    ties q (Shared.calculateAppDurations events)
    = filter (fun a => Qeq_bool (total (Shared.accumulate events) a) q)
        (filter (fun a => negb (String.eqb a Shared.LOCKEDSCREEN))
           (JsObject.keyOrder (first_occurrences (names events)))).

(** Among the entries whose application name is not an array index, those
    of equal duration come in the order in which their applications first
    occur in the input. *)
Definition other_ties_by_first_occurrence (events : list Shared.WindowEvent)
    : Prop :=
  forall q,
    filter (fun a => negb (JsObject.isIndex a))
      (ties q (Shared.calculateAppDurations events))
    = filter (fun a => Qeq_bool (total (Shared.accumulate events) a) q)
        (filter (fun a => negb (String.eqb a Shared.LOCKEDSCREEN))
           (filter (fun a => negb (JsObject.isIndex a))
              (first_occurrences (names events)))).

Definition descending (out : list Shared.AppDuration) : Prop :=
  StronglySorted
    (fun x y => seconds (Shared.duration y) <= seconds (Shared.duration x))
    out.

(** The dates of the range that have window events and are newer than [d]. *)
Definition newer_dates (db : TrackerDb.Database) (fromDate toDate : option Z)
    (d : Z) : list Z :=
  filter (fun d' => (d <? d')%Z)
    (TrackerDb.distinct_dates
       (map TrackerDb.w_logical_date
          (filter
             (fun w =>
                TrackerDb.in_range fromDate toDate (TrackerDb.w_logical_date w))
             (TrackerDb.window_events db)))).

(** The route answered with an error instead of the summaries. *)
Definition rejects (A : Type) (r : Server.response A) : bool :=
  match r with Server.Json200 _ => false | _ => true end.

Definition ev (t : Z) (a : string) : Shared.WindowEvent :=
  {| Shared.timestamp := t; Shared.app_name := a;
     Shared.window_title := None; Shared.browser_url := None |}.

Definition wr (t : Z) (a : string) (d : Z) : TrackerDb.WindowRow :=
  {| TrackerDb.w_timestamp := t; TrackerDb.w_app_name := a;
     TrackerDb.w_window_title := None; TrackerDb.w_browser_url := None;
     TrackerDb.w_logical_date := d |}.

Definition kr (t : Z) (n : Z) (d : Z) : TrackerDb.KeyRow :=
  {| TrackerDb.k_timestamp := t; TrackerDb.k_key_count := n;
     TrackerDb.k_logical_date := d |}.

(** The same value with every number in lowest terms. *)
Definition reduced (p : JsObject.prim) : JsObject.prim :=
  match p with
  | JsObject.Num q => JsObject.Num (Qred q)
  | JsObject.Text before o after =>
      JsObject.Text (map Qred before) o
        (map (fun x =>
                match x with
                | JsObject.Numeral q => JsObject.Numeral (Qred q)
                | JsObject.Source g => JsObject.Source g
                end) after)
  end.

(** The entries of an output, numbers in lowest terms. *)
Definition listing (out : list Shared.AppDuration)
    : list (string * JsObject.prim) :=
  map (fun x => (Shared.app x, reduced (Shared.duration x))) out.

(** An application called [__proto__], and another one a second later. *)
Definition events_proto : list Shared.WindowEvent :=
  [ev 0 "__proto__"; ev 1000 "A"].

(** An application called [constructor], and another one 5000 seconds
    later. *)
Definition events_constructor_idle : list Shared.WindowEvent :=
  [ev 0 "constructor"; ev 5000000 "A"].

(** An application called [constructor], and another one 20 minutes
    later. *)
Definition events_constructor : list Shared.WindowEvent :=
  [ev 0 "constructor"; ev 1200000 "A"].

(** Four logical dates: keys and windows on day 10, windows only on day 11,
    both on day 12, keys only on day 13. *)
Definition db_sample : TrackerDb.Database :=
  {| TrackerDb.window_events :=
       [wr 1000 "Chrome" 10; wr 2000 "Finder" 10; wr 3000 "Chrome" 11;
        wr 4000 "Mail" 12];
     TrackerDb.key_events :=
       [kr 1500 5 10; kr 2500 7 10; kr 4500 9 12; kr 5000 1 13]%Z |}.

(** One day: Chrome, 5000 seconds later the lock screen, 600 seconds later
    Finder. *)
Definition db_idle : TrackerDb.Database :=
  {| TrackerDb.window_events :=
       [wr 0 "Chrome" 1; wr 5000000 "__LOCKEDSCREEN" 1; wr 5600000 "Finder" 1];
     TrackerDb.key_events := [] |}.

(** ** shared.ts: [formatDuration] *)

Module Format.

(** [Math.round]: the nearest integer, halves towards plus infinity. *)
Definition Math_round (x : Q) : Z := Qfloor (x + (1 # 2)).

Definition Math_floor (x : Q) : Z := Qfloor x.

(** The integer part, towards zero. *)
Definition truncate (x : Q) : Z :=
  if Qle_bool 0 x then Qfloor x else Qceiling x.

(** [x % m]: the remainder has the sign of [x]. *)
Definition remainder (x m : Q) : Q := x - m * inject_Z (truncate (x / m)).

(** The text of an integer inside a template string (below 10^21). *)
Definition show (n : Z) : string :=
  DecimalString.NilZero.string_of_int (Z.to_int n).

(** The numbers that [formatDuration] prints, by branch. *)
Inductive shown :=
| Seconds (n : Z)
| Minutes (n : Z)
| HoursMinutes (hours mins : Z).

Definition durationParts (seconds : Q) : shown :=
  if negb (Qle_bool 60 seconds) then Seconds (Math_round seconds)
  else if negb (Qle_bool 3600 seconds) then Minutes (Math_round (seconds / 60))
  else
    let hours := Math_floor (seconds / 3600) in
    let mins := Math_round (remainder seconds 3600 / 60) in
    HoursMinutes hours mins.

Definition render (p : shown) : string :=
  match p with
  | Seconds n => (show n ++ "s")%string
  | Minutes n => (show n ++ "m")%string
  | HoursMinutes hours mins => (show hours ++ "h " ++ show mins ++ "m")%string
  end.

(** [formatDuration(seconds)]. *)
Definition formatDuration (seconds : Q) : string :=
  render (durationParts seconds).

(** The duration, in seconds, that a printed text stands for. *)
Definition meaning (p : shown) : Q :=
  match p with
  | Seconds n => inject_Z n
  | Minutes n => 60 * inject_Z n
  | HoursMinutes hours mins => 3600 * inject_Z hours + 60 * inject_Z mins
  end.

End Format.

(** ** CategoryStats.tsx and CategoryPieChart.tsx *)

Module Charts.

(** [entries.reduce((sum, entry) => sum + entry.duration, 0)]. *)
Definition sumDurations (entries : list Shared.AppDuration) : JsObject.prim :=
  fold_left (fun sum entry => JsObject.plus sum (Shared.duration entry))
    entries (JsObject.Num 0).

(** [CategoryStats]: the bars of the chart. *)
Definition statsTopApps (events : list Shared.WindowEvent)
    : list Shared.AppDuration :=
  match events with
  | [] => []
  | _ => firstn 8 (Shared.calculateAppDurations events)
  end.

(** [CategoryPieChart]: [otherDuration]. *)
Definition otherDuration (events : list Shared.WindowEvent) : JsObject.prim :=
  sumDurations (skipn 5 (Shared.calculateAppDurations events)).

(** [x > 0]; a comparison with NaN is false. *)
Definition positive (x : JsObject.prim) : bool :=
  match JsObject.toNumber x with
  | Some q => negb (Qle_bool q 0)
  | None => false
  end.

(** [CategoryPieChart]: [topApps] once ["Other"] has been pushed. *)
Definition pieTopApps (events : list Shared.WindowEvent)
    : list Shared.AppDuration :=
  match events with
  | [] => []
  | _ =>
      let allApps := Shared.calculateAppDurations events in
      let topApps := firstn 5 allApps in
      if positive (otherDuration events)
      then topApps
           ++ [ {| Shared.app := "Other";
                   Shared.duration := otherDuration events |} ]
      else topApps
  end.

(** [CategoryPieChart]: [totalSeconds], printed in the middle of the pie. *)
Definition totalSeconds (events : list Shared.WindowEvent) : JsObject.prim :=
  match events with
  | [] => JsObject.Num 0
  | _ => sumDurations (pieTopApps events)
  end.

End Charts.

(** ** HackingStreak.tsx *)

Module HackingStreak.

Definition getIntensityColor (intensity : Q) : string :=
  if Qeq_bool intensity 0 then "bg-stone-100"
  else if negb (Qle_bool (2 # 10) intensity) then "bg-[#D4735E]/15"
  else if negb (Qle_bool (4 # 10) intensity) then "bg-[#D4735E]/30"
  else if negb (Qle_bool (6 # 10) intensity) then "bg-[#D4735E]/50"
  else if negb (Qle_bool (8 # 10) intensity) then "bg-[#D4735E]/70"
  else "bg-[#D4735E]".

Record Cell := { date : Z; keys : Z; intensity : Q }.

(** [Math.max(...sorted.map((d) => d.total_keys), 1)]. *)
Definition maxKeys (days : list TrackerDb.DailySummary) : Z :=
  fold_right Z.max 1%Z (map TrackerDb.total_keys (rev days)).

Definition cells (days : list TrackerDb.DailySummary) : list Cell :=
  map
    (fun day =>
       {| date := TrackerDb.logical_date day;
          keys := TrackerDb.total_keys day;
          intensity :=
            inject_Z (TrackerDb.total_keys day) / inject_Z (maxKeys days) |})
    (rev days).

(** The class of the square drawn for a cell. *)
Definition cellColor (c : Cell) : string := getIntensityColor (intensity c).

End HackingStreak.

(** ** The Overview page *)

Module OverviewPage.

Definition totalKeystrokes (overview : list TrackerDb.DailySummary) : Z :=
  fold_left (fun sum d => (sum + TrackerDb.total_keys d)%Z) overview 0%Z.

Definition avgKeystrokes (overview : list TrackerDb.DailySummary) : Z :=
  match overview with
  | [] => 0%Z
  | _ =>
      Format.Math_round
        (inject_Z (totalKeystrokes overview)
         / inject_Z (Z.of_nat (List.length overview)))
  end.

Definition activeDays (overview : list TrackerDb.DailySummary) : nat :=
  List.length (filter (fun d => (0 <? TrackerDb.total_keys d)%Z) overview).

(** [overview.find((d) => d.logical_date === dateInfo.logical_date)]. *)
Definition summaryOf (overview : list TrackerDb.DailySummary) (d : Z)
    : option TrackerDb.DailySummary :=
  find (fun s => (TrackerDb.logical_date s =? d)%Z) overview.

(** The number of keys printed on the card of a day:
    [summary?.total_keys?.toLocaleString() || 0]. *)
Definition cardKeys (overview : list TrackerDb.DailySummary) (d : Z) : Z :=
  match summaryOf overview d with
  | Some s => TrackerDb.total_keys s
  | None => 0%Z
  end.

(** The cards of "Recent Days": [dates.slice(0, 30)], each with its keys. *)
Definition recentDays (dates : list Z)
    (overview : list TrackerDb.DailySummary) : list (Z * Z) :=
  map (fun d => (d, cardKeys overview d)) (firstn 30 dates).

(** What the page shows once both requests of its effect are answered:
    [/api/tracker/dates] and [/api/tracker/overview?limit=30]. *)
Definition loadedCards (db : TrackerDb.Database) : list (Z * Z) :=
  recentDays (TrackerDb.getAvailableDates db)
    (TrackerDb.getOverview db None None (Server.limit_of_query (Some "30"))).

End OverviewPage.

(** ** tracker-db.ts: notes, the daily blog and [getDayData] *)

Module TrackerStore.

Record NoteRow := {
  n_timestamp : Z;
  n_content : string;
  n_logical_date : Z
}.

Record BlogRow := {
  b_logical_date : Z;
  b_content : string
}.

(** The database with the tables [notes] and [daily_blog]. *)
Record Store := {
  events : TrackerDb.Database;
  notes : list NoteRow;
  daily_blog : list BlogRow
}.

Record KeyEvent := { ke_timestamp : Z; key_count : Z }.

Record Note := { note_timestamp : Z; content : string }.

Record DayData := {
  logical_date : Z;
  window_events : list Shared.WindowEvent;
  key_events : list KeyEvent;
  day_notes : list Note;
  blog : option string
}.

(** [INSERT INTO notes ... ON CONFLICT (timestamp) DO UPDATE SET content =
    excluded.content]. *)
Fixpoint upsertNote (timestamp : Z) (content : string) (logicalDate : Z)
    (rows : list NoteRow) : list NoteRow :=
  match rows with
  | [] =>
      [ {| n_timestamp := timestamp; n_content := content;
           n_logical_date := logicalDate |} ]
  | r :: rest =>
      if (n_timestamp r =? timestamp)%Z
      then {| n_timestamp := n_timestamp r; n_content := content;
              n_logical_date := n_logical_date r |} :: rest
      else r :: upsertNote timestamp content logicalDate rest
  end.

(** [addNote(timestamp, content, logicalDate)]. *)
Definition addNote (timestamp : Z) (content : string) (logicalDate : Z)
    (s : Store) : Store :=
  {| events := events s;
     notes := upsertNote timestamp content logicalDate (notes s);
     daily_blog := daily_blog s |}.

(** [INSERT INTO daily_blog ... ON CONFLICT (logical_date) DO UPDATE SET
    content = excluded.content]. *)
Fixpoint upsertBlog (logicalDate : Z) (content : string)
    (rows : list BlogRow) : list BlogRow :=
  match rows with
  | [] => [ {| b_logical_date := logicalDate; b_content := content |} ]
  | r :: rest =>
      if (b_logical_date r =? logicalDate)%Z
      then {| b_logical_date := b_logical_date r; b_content := content |}
           :: rest
      else r :: upsertBlog logicalDate content rest
  end.

(** [saveBlog(logicalDate, content)]. *)
Definition saveBlog (logicalDate : Z) (content : string) (s : Store)
    : Store :=
  {| events := events s;
     notes := notes s;
     daily_blog := upsertBlog logicalDate content (daily_blog s) |}.

Definition dayKeyEvents (db : TrackerDb.Database) (logicalDate : Z)
    : list KeyEvent :=
  map (fun k => {| ke_timestamp := TrackerDb.k_timestamp k;
                   key_count := TrackerDb.k_key_count k |})
    (TrackerDb.order_asc TrackerDb.k_timestamp
       (filter (fun k => (TrackerDb.k_logical_date k =? logicalDate)%Z)
          (TrackerDb.key_events db))).

Definition dayNotes (s : Store) (logicalDate : Z) : list Note :=
  map (fun r => {| note_timestamp := n_timestamp r; content := n_content r |})
    (TrackerDb.order_asc n_timestamp
       (filter (fun r => (n_logical_date r =? logicalDate)%Z) (notes s))).

(** [blogRows.length > 0 && blogRows[0][0] ? String(blogRows[0][0]) : null]. *)
Definition dayBlog (s : Store) (logicalDate : Z) : option string :=
  match filter (fun r => (b_logical_date r =? logicalDate)%Z) (daily_blog s)
  with
  | [] => None
  | r :: _ =>
      match b_content r with
      | EmptyString => None
      | c => Some c
      end
  end.

(** [getDayData(logicalDate)]. *)
Definition getDayData (s : Store) (logicalDate : Z) : DayData :=
  {| logical_date := logicalDate;
     window_events := TrackerDb.dayWindowEvents (events s) logicalDate;
     key_events := dayKeyEvents (events s) logicalDate;
     day_notes := dayNotes s logicalDate;
     blog := dayBlog s logicalDate |}.

End TrackerStore.

(** ** The DayView page *)

Module DayView.

(** [dayData?.key_events.reduce((sum, e) => sum + e.key_count, 0) || 0]. *)
Definition totalKeystrokes (dayData : option TrackerStore.DayData) : Z :=
  match dayData with
  | Some d =>
      fold_left (fun sum e => (sum + TrackerStore.key_count e)%Z)
        (TrackerStore.key_events d) 0%Z
  | None => 0%Z
  end.

(** [new Set(dayData?.window_events.map((e) => e.app_name)).size]. *)
Definition uniqueApps (dayData : option TrackerStore.DayData) : nat :=
  match dayData with
  | Some d =>
      List.length
        (nodup string_dec
           (map Shared.app_name (TrackerStore.window_events d)))
  | None => 0%nat
  end.

(** [availableDates.findIndex((d) => d.logical_date === date)], -1 when no
    date matches. *)
Fixpoint findIndex (availableDates : list Z) (date : Z) : Z :=
  match availableDates with
  | [] => (-1)%Z
  | d :: rest =>
      if (d =? date)%Z then 0%Z
      else
        let i := findIndex rest date in
        if (i <? 0)%Z then (-1)%Z else (i + 1)%Z
  end.

(** [availableDates[i]], [None] for [undefined]. *)
Definition at_index (availableDates : list Z) (i : Z) : option Z :=
  if (i <? 0)%Z then None else nth_error availableDates (Z.to_nat i).

Definition prevDate (availableDates : list Z) (date : Z) : option Z :=
  let currentIndex := findIndex availableDates date in
  if (currentIndex <? Z.of_nat (List.length availableDates) - 1)%Z
  then at_index availableDates (currentIndex + 1)
  else None.

Definition nextDate (availableDates : list Z) (date : Z) : option Z :=
  let currentIndex := findIndex availableDates date in
  if (0 <? currentIndex)%Z
  then at_index availableDates (currentIndex - 1)
  else None.

End DayView.

(** Nine applications, used for 1, 2, ... 8 and 0 seconds. *)
Definition events_nine : list Shared.WindowEvent :=
  [ev 0 "a"; ev 1000 "b"; ev 3000 "c"; ev 6000 "d"; ev 10000 "e";
   ev 15000 "f"; ev 21000 "g"; ev 28000 "h"; ev 36000 "i"].

Definition no_entry : Shared.AppDuration :=
  {| Shared.app := ""; Shared.duration := JsObject.Num 0 |}.

(** The sum of the key counts recorded for a logical date. *)
Definition keysOfDate (db : TrackerDb.Database) (d : Z) : Z :=
  fold_right Z.add 0%Z
    (map TrackerDb.k_key_count
       (filter (fun k => (TrackerDb.k_logical_date k =? d)%Z)
          (TrackerDb.key_events db))).

(** The window events recorded for a logical date. *)
Definition windowsOfDate (db : TrackerDb.Database) (d : Z)
    : list TrackerDb.WindowRow :=
  filter (fun w => (TrackerDb.w_logical_date w =? d)%Z)
    (TrackerDb.window_events db).

(** The number written by decimal digits, most significant first, after the
    digits already read as [acc]. *)
Fixpoint digitsValue (d : Decimal.uint) (acc : Z) : Z :=
  match d with
  | Decimal.Nil => acc
  | Decimal.D0 d => digitsValue d (10 * acc)%Z
  | Decimal.D1 d => digitsValue d (10 * acc + 1)%Z
  | Decimal.D2 d => digitsValue d (10 * acc + 2)%Z
  | Decimal.D3 d => digitsValue d (10 * acc + 3)%Z
  | Decimal.D4 d => digitsValue d (10 * acc + 4)%Z
  | Decimal.D5 d => digitsValue d (10 * acc + 5)%Z
  | Decimal.D6 d => digitsValue d (10 * acc + 6)%Z
  | Decimal.D7 d => digitsValue d (10 * acc + 7)%Z
  | Decimal.D8 d => digitsValue d (10 * acc + 8)%Z
  | Decimal.D9 d => digitsValue d (10 * acc + 9)%Z
  end.

(** A store for the examples. *)
Definition store_sample : TrackerStore.Store :=
  {| TrackerStore.events := db_sample;
     TrackerStore.notes :=
       [ {| TrackerStore.n_timestamp := 1200%Z;
            TrackerStore.n_content := "standup";
            TrackerStore.n_logical_date := 10%Z |} ];
     TrackerStore.daily_blog :=
       [ {| TrackerStore.b_logical_date := 10%Z;
            TrackerStore.b_content := "a quiet day" |} ] |}.

(** * Properties *)

(** ** Stable sorting *)

Section SortFacts.
Variable A : Type.
Variable before : A -> A -> bool.

Local Abbreviation insert := (StableSort.insert before).
Local Abbreviation sort := (StableSort.sort before).

Lemma insert_In x y l : In y (insert x l) <-> y = x \/ In y l.
Proof.
  induction l as [|z l IH]; simpl.
  - intuition.
  - destruct (before x z); simpl; rewrite ?IH; intuition.
Qed.

Lemma sort_In y l : In y (sort l) <-> In y l.
Proof.
  induction l as [|z l IH]; simpl; [reflexivity|].
  rewrite insert_In, IH. intuition.
Qed.

Lemma insert_perm x l : Permutation (insert x l) (x :: l).
Proof.
  induction l as [|z l IH]; simpl; [reflexivity|].
  destruct (before x z); [reflexivity|].
  rewrite IH. apply perm_swap.
Qed.

Lemma sort_perm l : Permutation (sort l) l.
Proof.
  induction l as [|z l IH]; simpl; [reflexivity|].
  rewrite insert_perm. now constructor.
Qed.

(** Inserting [x] does not disturb the elements selected by [p], provided
    the elements that [x] is moved behind are not selected with it. *)
Lemma filter_insert (p : A -> bool) x l :
  (p x = true -> forall y, In y l -> before x y = false -> p y = false) ->
  filter p (insert x l) = if p x then x :: filter p l else filter p l.
Proof.
  induction l as [|z l IH]; intros H; simpl.
  - reflexivity.
  - destruct (before x z) eqn:Hb; simpl.
    + reflexivity.
    + rewrite IH by (intros Hx y Hy; apply H; simpl; auto).
      destruct (p x) eqn:Hx.
      * rewrite (H eq_refl z (or_introl eq_refl) Hb). reflexivity.
      * reflexivity.
Qed.

Lemma filter_sort (p : A -> bool) l :
  (forall x y, p x = true -> before x y = false -> p y = false) ->
  filter p (sort l) = filter p l.
Proof.
  intros H. induction l as [|z l IH]; simpl; [reflexivity|].
  rewrite filter_insert by (intros Hz y _; apply H, Hz).
  now rewrite IH.
Qed.

Hypothesis before_total : forall x y, before x y = false -> before y x = true.
Hypothesis before_trans :
  forall x y z, before x y = true -> before y z = true -> before x z = true.

Let R := fun x y => before x y = true.

Lemma insert_sorted x l : StronglySorted R l -> StronglySorted R (insert x l).
Proof.
  induction 1 as [|z l Hs IH Hz]; simpl.
  - repeat constructor.
  - destruct (before x z) eqn:Hb.
    + constructor; [now constructor|].
      constructor; [exact Hb|].
      rewrite Forall_forall in *. intros y Hy.
      apply before_trans with z; auto. apply Hz, Hy.
    + constructor; [exact IH|].
      rewrite Forall_forall in *. intros y Hy.
      apply insert_In in Hy. destruct Hy as [->|Hy].
      * now apply before_total.
      * now apply Hz.
Qed.

Lemma sort_sorted l : StronglySorted R (sort l).
Proof.
  induction l as [|z l IH]; simpl; [constructor|].
  now apply insert_sorted.
Qed.
End SortFacts.

(** ** Objects *)

Lemma own_define_same o k v :
  JsObject.own (JsObject.define o k v) k = Some v.
Proof.
  induction o as [|[k' v'] o IH]; simpl.
  - now rewrite String.eqb_refl.
  - destruct (String.eqb k' k) eqn:E; simpl; rewrite E; auto.
Qed.

Lemma own_define_other o k k' v :
  k <> k' -> JsObject.own (JsObject.define o k v) k' = JsObject.own o k'.
Proof.
  intros Hne. induction o as [|[k0 v0] o IH]; simpl.
  - destruct (String.eqb_spec k k'); congruence.
  - destruct (String.eqb_spec k0 k) as [->|Hk]; simpl.
    + destruct (String.eqb_spec k k'); congruence.
    + now rewrite IH.
Qed.

(** Only the key [__proto__] is assigned to without becoming an own
    property. *)
Lemma set_define o k v :
  k <> "__proto__" -> JsObject.set o k v = JsObject.define o k v.
Proof.
  intros Hk. unfold JsObject.set.
  destruct (JsObject.own o k); [reflexivity|].
  destruct (String.eqb_spec k "__proto__"); [contradiction|reflexivity].
Qed.

Lemma own_set_same o k v :
  k <> "__proto__" -> JsObject.own (JsObject.set o k v) k = Some v.
Proof. intros Hk. rewrite set_define by exact Hk. apply own_define_same. Qed.

Lemma own_set_other o k k' v :
  k <> k' -> JsObject.own (JsObject.set o k v) k' = JsObject.own o k'.
Proof.
  intros Hne. unfold JsObject.set.
  destruct (JsObject.own o k); [now apply own_define_other|].
  destruct (String.eqb k "__proto__"); [reflexivity|].
  now apply own_define_other.
Qed.

Lemma own_None_keys o k : JsObject.own o k = None <-> ~ In k (keys o).
Proof.
  induction o as [|[k' v'] o IH]; simpl.
  - intuition.
  - destruct (String.eqb_spec k' k) as [->|Hk].
    + split; [discriminate|intros H; exfalso; auto].
    + rewrite IH. intuition.
Qed.

Lemma hasKey_keys o k : hasKey o k = true <-> In k (keys o).
Proof.
  unfold hasKey. destruct (JsObject.own o k) eqn:E.
  - split; [intros _|reflexivity].
    destruct (in_dec string_dec k (keys o)) as [H|H]; [exact H|].
    apply own_None_keys in H. congruence.
  - split; [discriminate|]. intros H. apply own_None_keys in E. contradiction.
Qed.

Lemma keys_define_old o k v :
  In k (keys o) -> keys (JsObject.define o k v) = keys o.
Proof.
  induction o as [|[k' v'] o IH]; simpl; [contradiction|].
  destruct (String.eqb_spec k' k) as [->|Hk]; simpl; [reflexivity|].
  intros [H|H]; [congruence|]. now rewrite IH.
Qed.

Lemma keys_define_new o k v :
  ~ In k (keys o) -> keys (JsObject.define o k v) = keys o ++ [k].
Proof.
  induction o as [|[k' v'] o IH]; simpl; [reflexivity|].
  destruct (String.eqb_spec k' k) as [->|Hk]; simpl; intros H.
  - exfalso; auto.
  - rewrite IH; auto.
Qed.

Lemma keys_set_old o k v :
  In k (keys o) -> keys (JsObject.set o k v) = keys o.
Proof.
  intros H. unfold JsObject.set.
  destruct (JsObject.own o k) eqn:E; [now apply keys_define_old|].
  apply own_None_keys in E. contradiction.
Qed.

Lemma keys_set_new o k v :
  ~ In k (keys o) -> k <> "__proto__" ->
  keys (JsObject.set o k v) = keys o ++ [k].
Proof.
  intros H Hk. rewrite set_define by exact Hk. now apply keys_define_new.
Qed.

(** An assignment to [__proto__] leaves an object without such an own
    property as it was. *)
Lemma set_proto o v :
  ~ In "__proto__" (keys o) -> JsObject.set o "__proto__" v = o.
Proof.
  intros H. unfold JsObject.set.
  apply own_None_keys in H. now rewrite H.
Qed.

Lemma own_In o k v :
  NoDup (keys o) -> In (k, v) o -> JsObject.own o k = Some v.
Proof.
  induction o as [|[k' v'] o IH]; simpl; [contradiction|].
  intros Hnd [H|H].
  - inversion H; subst. now rewrite String.eqb_refl.
  - inversion Hnd; subst.
    destruct (String.eqb_spec k' k) as [->|Hk]; [|auto].
    exfalso. apply H2. change k with (fst (k, v)). now apply in_map.
Qed.

Lemma get_ext o o' k :
  JsObject.own o k = JsObject.own o' k -> JsObject.get o k = JsObject.get o' k.
Proof. unfold JsObject.get. now intros ->. Qed.

Lemma ordinary_not_proto k : JsObject.inherited k = None -> k <> "__proto__".
Proof. intros H ->. discriminate H. Qed.

Lemma Qsum_define o k v :
  Qsum (map (fun kv => seconds (snd kv)) (JsObject.define o k v))
  == Qsum (map (fun kv => seconds (snd kv)) o) - total o k + seconds v.
Proof.
  unfold total. induction o as [|[k' v'] o IH]; simpl.
  - ring.
  - destruct (String.eqb_spec k' k) as [->|Hk]; simpl.
    + ring.
    + rewrite IH. ring.
Qed.

(** ** First occurrences *)

Lemma first_occurrences_In a l : In a (first_occurrences l) <-> In a l.
Proof.
  induction l as [|b l IH]; simpl; [reflexivity|].
  rewrite filter_In, IH.
  destruct (String.eqb_spec a b) as [->|Hab]; simpl; intuition congruence.
Qed.

Lemma first_occurrences_NoDup l : NoDup (first_occurrences l).
Proof.
  induction l as [|b l IH]; simpl; constructor.
  - rewrite filter_In, String.eqb_refl. simpl. intuition discriminate.
  - now apply NoDup_filter.
Qed.

Lemma first_occurrences_snoc a l :
  first_occurrences (l ++ [a])
  = if in_dec string_dec a l then first_occurrences l
    else first_occurrences l ++ [a].
Proof.
  induction l as [|b l IH]; simpl; [reflexivity|].
  rewrite IH. destruct (in_dec string_dec a l) as [Hin|Hout].
  - destruct (string_dec b a); [reflexivity|].
    destruct (in_dec string_dec a l); [reflexivity|contradiction].
  - rewrite filter_app. simpl.
    destruct (String.eqb_spec a b) as [->|Hab]; simpl.
    + destruct (string_dec b b); [|congruence]. now rewrite app_nil_r.
    + destruct (string_dec b a); [congruence|].
      destruct (in_dec string_dec a l); [contradiction|reflexivity].
Qed.

(** ** The accumulation loop *)

Lemma loop_S events n :
  Shared.loop events (S n) = Shared.body events (Shared.loop events n) n.
Proof.
  unfold Shared.loop. now rewrite seq_S, fold_left_app.
Qed.

Lemma body_out events o i :
  nth_error events i = None -> Shared.body events o i = o.
Proof. unfold Shared.body. now intros ->. Qed.

Lemma body_other events o i e a :
  nth_error events i = Some e -> a <> Shared.app_name e ->
  JsObject.own (Shared.body events o i) a = JsObject.own o a.
Proof.
  intros He Ha. unfold Shared.body. rewrite He. cbv zeta.
  apply own_set_other. congruence.
Qed.

(** An iteration on an event whose application name is inherited by no
    object, and whose bucket holds a number if it exists, adds the capped
    duration to that number. *)
Lemma body_ordinary events o i e :
  nth_error events i = Some e ->
  JsObject.inherited (Shared.app_name e) = None ->
  (forall v, JsObject.own o (Shared.app_name e) = Some v ->
             exists q, v = JsObject.Num q) ->
  exists q,
    JsObject.own (Shared.body events o i) (Shared.app_name e)
    = Some (JsObject.Num q)
    /\ q == total o (Shared.app_name e) + Shared.cappedDuration events i.
Proof.
  intros He Hord Hnum. unfold Shared.body. rewrite He. cbv zeta.
  rewrite own_set_same by now apply ordinary_not_proto.
  unfold JsObject.get, total.
  destruct (JsObject.own o (Shared.app_name e)) as [v|] eqn:E.
  - destruct (Hnum v eq_refl) as [q ->]. cbn [Shared.or0_plus seconds].
    eexists. split; [reflexivity|].
    destruct (Qeq_bool q 0) eqn:Hq; [|reflexivity].
    apply Qeq_bool_eq in Hq. now rewrite Hq.
  - rewrite Hord. cbn [Shared.or0_plus].
    eexists. split; reflexivity.
Qed.

Lemma cappedDuration_pair events i e e' :
  nth_error events i = Some e -> nth_error events (S i) = Some e' ->
  Shared.cappedDuration events i
  == Qmin (inject_Z (Shared.timestamp e' - Shared.timestamp e) / 1000) 1800.
Proof.
  intros He He'. unfold Shared.cappedDuration.
  rewrite He, Nat.add_1_r, He'. cbv zeta.
  apply Q.min_compat; reflexivity.
Qed.

Lemma firstn_S_snoc (A : Type) (l : list A) n x :
  nth_error l n = Some x -> firstn (S n) l = firstn n l ++ [x].
Proof.
  revert n. induction l as [|y l IH]; intros [|n] H; simpl in *;
    try discriminate.
  - now inversion H.
  - now rewrite (IH n H).
Qed.

Lemma firstn_S_all (A : Type) (l : list A) n :
  nth_error l n = None -> firstn (S n) l = firstn n l.
Proof.
  intros H. apply nth_error_None in H.
  rewrite !firstn_all2; auto with arith.
Qed.

(** The own keys of [durations] are the application names seen so far,
    [__proto__] apart, in the order of their first occurrence. *)
Lemma loop_keys events n :
  keys (Shared.loop events n)
  = first_occurrences
      (filter (fun a => negb (String.eqb a "__proto__"))
         (firstn n (names events))).
Proof.
  induction n as [|n IH]; [reflexivity|].
  rewrite loop_S. destruct (nth_error events n) as [e|] eqn:He.
  - assert (Hn : nth_error (names events) n = Some (Shared.app_name e)).
    { unfold names. now rewrite nth_error_map, He. }
    rewrite (firstn_S_snoc _ _ Hn), filter_app.
    unfold Shared.body. rewrite He. cbv zeta. cbn [filter].
    destruct (String.eqb_spec (Shared.app_name e) "__proto__") as [->|Hp];
      cbn [negb].
    + rewrite app_nil_r, set_proto; [exact IH|].
      rewrite IH, first_occurrences_In, filter_In.
      intros [_ H]. discriminate H.
    + rewrite first_occurrences_snoc.
      destruct (in_dec string_dec _ _) as [Hin|Hout].
      * rewrite keys_set_old; [exact IH|].
        rewrite IH. now apply first_occurrences_In.
      * rewrite keys_set_new; [now rewrite IH| |exact Hp].
        rewrite IH. now rewrite first_occurrences_In.
  - rewrite body_out by exact He.
    assert (Hn : nth_error (names events) n = None).
    { unfold names. now rewrite nth_error_map, He. }
    now rewrite (firstn_S_all _ _ Hn).
Qed.

Lemma accumulate_keys events :
  keys (Shared.accumulate events)
  = first_occurrences
      (filter (fun a => negb (String.eqb a "__proto__")) (names events)).
Proof.
  unfold Shared.accumulate. rewrite loop_keys.
  rewrite firstn_all2; [reflexivity|].
  unfold names. now rewrite length_map.
Qed.

Lemma accumulate_NoDup events : NoDup (keys (Shared.accumulate events)).
Proof. rewrite accumulate_keys. apply first_occurrences_NoDup. Qed.

Lemma total_ext o o' a :
  JsObject.own o a = JsObject.own o' a -> total o a == total o' a.
Proof. unfold total. now intros ->. Qed.

Lemma Qsum_snoc (f : nat -> Q) n :
  Qsum (map f (seq 0 (S n))) == Qsum (map f (seq 0 n)) + f n.
Proof.
  rewrite seq_S, map_app. unfold Qsum. rewrite fold_right_app. simpl.
  generalize (map f (seq 0 n)). intros l.
  induction l as [|y l IHl]; simpl; [ring|]. rewrite IHl. ring.
Qed.

(** The bucket of an application whose name is inherited by no object holds
    a number, the sum of what its own events added. *)
Lemma loop_ordinary events a n :
  JsObject.inherited a = None ->
  (forall v, JsObject.own (Shared.loop events n) a = Some v ->
             exists q, v = JsObject.Num q)
  /\ total (Shared.loop events n) a
     == Qsum (map (contribution events a) (seq 0 n)).
Proof.
  intros Hord. induction n as [|n [IHn IHt]].
  - split; [discriminate|reflexivity].
  - rewrite loop_S, Qsum_snoc, <- IHt. unfold contribution.
    destruct (nth_error events n) as [e|] eqn:He.
    + destruct (String.eqb_spec (Shared.app_name e) a) as [<-|Hne].
      * destruct (@body_ordinary events (Shared.loop events n) n e
                    He Hord IHn) as [q [Hq Eq]].
        split.
        -- intros v Hv. rewrite Hq in Hv. inversion Hv. now exists q.
        -- unfold total at 1. rewrite Hq. exact Eq.
      * pose proof (body_other _ (Shared.loop events n) _ He
                      (not_eq_sym Hne)) as Ho.
        split.
        -- intros v Hv. rewrite Ho in Hv. now apply IHn.
        -- rewrite (total_ext _ _ _ Ho). ring.
    + rewrite body_out by exact He. split; [exact IHn|ring].
Qed.

(** The bucket of an application named like a property of
    [Object.prototype] never holds a number. *)
Lemma loop_inherited events a n :
  JsObject.inherited a <> None ->
  forall v, JsObject.own (Shared.loop events n) a = Some v ->
            JsObject.toNumber v = None.
Proof.
  intros Hinh. induction n as [|n IH]; [discriminate|].
  rewrite loop_S. destruct (nth_error events n) as [e|] eqn:He.
  - destruct (String.eqb_spec (Shared.app_name e) a) as [<-|Hne].
    + unfold Shared.body. rewrite He. cbv zeta.
      unfold JsObject.get, JsObject.set.
      destruct (JsObject.own (Shared.loop events n) (Shared.app_name e))
        as [v0|] eqn:E.
      * intros v. rewrite own_define_same. intros Hv. inversion Hv.
        specialize (IH v0 eq_refl). destruct v0; [discriminate IH|].
        reflexivity.
      * destruct (JsObject.inherited (Shared.app_name e)) as [g|];
          [|congruence].
        destruct (String.eqb (Shared.app_name e) "__proto__").
        -- intros v Hv. congruence.
        -- intros v. rewrite own_define_same. intros Hv. inversion Hv.
           reflexivity.
    + intros v. rewrite (body_other _ _ _ He (not_eq_sym Hne)). apply IH.
  - rewrite body_out by exact He. exact IH.
Qed.

Lemma entries_perm o : Permutation (JsObject.entries o) o.
Proof.
  unfold JsObject.entries. rewrite sort_perm.
  induction o as [|[k v] o IH]; simpl; [constructor|].
  destruct (JsObject.isIndex k); simpl.
  - now constructor.
  - rewrite <- Permutation_middle. now constructor.
Qed.

Lemma entries_In x o : In x (JsObject.entries o) <-> In x o.
Proof.
  split; apply Permutation_in; [|symmetry]; apply entries_perm.
Qed.

Lemma calculateAppDurations_In x events :
  In x (Shared.calculateAppDurations events) <->
  Shared.app x <> Shared.LOCKEDSCREEN
  /\ In (Shared.app x, Shared.duration x) (Shared.accumulate events).
Proof.
  unfold Shared.calculateAppDurations, StableSort.sort_cmp.
  rewrite in_map_iff. split.
  - intros [[k v] [<- H]]. apply sort_In, filter_In in H.
    destruct H as [H Hk]. apply (proj1 (entries_In _ _)) in H. simpl in *.
    split; [|exact H].
    destruct (String.eqb_spec k Shared.LOCKEDSCREEN); [discriminate|assumption].
  - intros [Hk H]. exists (Shared.app x, Shared.duration x).
    split; [now destruct x|].
    apply sort_In, filter_In. split; [now apply entries_In|].
    simpl. now destruct (String.eqb_spec (Shared.app x) Shared.LOCKEDSCREEN).
Qed.

(** An entry of the output is the own bucket of its application. *)
Lemma output_own events x :
  In x (Shared.calculateAppDurations events) ->
  JsObject.own (Shared.accumulate events) (Shared.app x)
  = Some (Shared.duration x).
Proof.
  intros Hx. apply calculateAppDurations_In in Hx. destruct Hx as [_ Hx].
  apply own_In; [apply accumulate_NoDup|exact Hx].
Qed.

Lemma ordinary_names events a :
  ordinary events = true -> In a (names events) ->
  JsObject.inherited a = None.
Proof.
  unfold ordinary. rewrite forallb_forall. intros H Ha.
  specialize (H a Ha). now destruct (JsObject.inherited a).
Qed.

Lemma ordinary_filter events :
  ordinary events = true ->
  filter (fun a => negb (String.eqb a "__proto__")) (names events)
  = names events.
Proof.
  intros H. apply forallb_filter_id. apply forallb_forall. intros a Ha.
  pose proof (ordinary_not_proto (ordinary_names _ _ H Ha)) as Hp.
  now destruct (String.eqb_spec a "__proto__").
Qed.

(** The own keys of an input without inherited names are all its names. *)
Lemma accumulate_keys_ordinary events :
  ordinary events = true ->
  keys (Shared.accumulate events) = first_occurrences (names events).
Proof. intros H. now rewrite accumulate_keys, ordinary_filter. Qed.

Lemma accumulate_key_names events k :
  In k (keys (Shared.accumulate events)) -> In k (names events).
Proof.
  rewrite accumulate_keys, first_occurrences_In, filter_In. now intros [H _].
Qed.

(** Without inherited names every bucket holds a number. *)
Lemma accumulate_numeric events k v :
  ordinary events = true -> In (k, v) (Shared.accumulate events) ->
  exists q, v = JsObject.Num q.
Proof.
  intros Hord Hin.
  assert (Hk : In k (names events)).
  { apply accumulate_key_names. change k with (fst (k, v)).
    now apply in_map. }
  apply (proj1 (@loop_ordinary events k (List.length events)
                  (ordinary_names _ _ Hord Hk)) v).
  apply own_In; [apply accumulate_NoDup|exact Hin].
Qed.

Lemma output_numeric events :
  ordinary events = true -> numeric (Shared.calculateAppDurations events).
Proof.
  intros Hord. apply Forall_forall. intros x Hx.
  apply calculateAppDurations_In in Hx. destruct Hx as [_ Hx].
  exact (accumulate_numeric _ _ _ Hord Hx).
Qed.

(** ** The duration aggregator *)

(** The examples of the specification: a single event yields a zero
    duration; Chrome, then Finder ten minutes later, yields 600 seconds for
    Chrome and 0 for Finder. *)
Example single_event :
  listing (Shared.calculateAppDurations [ev 1700000000000 "X"])
  = [("X", JsObject.Num 0)].
Proof. vm_compute. reflexivity. Qed.

Example chrome_then_finder :
  listing (Shared.calculateAppDurations
           [ev 1700000000000 "Chrome"; ev 1700000600000 "Finder"])
  = [("Chrome", JsObject.Num 600); ("Finder", JsObject.Num 0)].
Proof. vm_compute. reflexivity. Qed.

Lemma accumulate_hasKey events a :
  a <> "__proto__" ->
  hasKey (Shared.accumulate events) a = existsb (String.eqb a) (names events).
Proof.
  intros Hp. apply Bool.eq_iff_eq_true.
  rewrite hasKey_keys, accumulate_keys, first_occurrences_In, filter_In,
    existsb_exists.
  split.
  - intros [H _]. exists a. split; [exact H|]. apply String.eqb_refl.
  - intros [b [Hb E]]. apply String.eqb_eq in E. subst b.
    split; [exact Hb|]. now destruct (String.eqb_spec a "__proto__").
Qed.

(** C1 fails on the code for an application named like a property of
    [Object.prototype].  For [__proto__] followed one second later by
    another application, the capped gap of the first event is 1 second and
    the first iteration leaves [durations] as it was, without any bucket;
    the output has no entry for that application.  For [constructor]
    followed 5000 seconds later by another application, the capped gap is
    1800 and the bucket is no running total but a text, the source text of
    the inherited function followed by the numeral of 1800. *)
Theorem C1_inherited_name_not_added :
  Shared.cappedDuration events_proto 0 == 1
  /\ Shared.loop events_proto 1 = Shared.loop events_proto 0
  /\ hasKey (Shared.accumulate events_proto) "__proto__" = false
  /\ listing (Shared.calculateAppDurations events_proto)
     = [("A", JsObject.Num 0)]
  /\ Shared.cappedDuration events_constructor_idle 0 == 1800
  /\ Shared.loop events_constructor_idle 1
     = [("constructor",
         JsObject.Text [] (JsObject.Function "constructor")
           [JsObject.Numeral 1800])].
Proof. repeat split; vm_compute; reflexivity. Qed.

(** C2: no entry of the output is for [__LOCKEDSCREEN], whatever the input;
    the loop itself does not skip the sentinel: its bucket exists after the
    accumulation exactly when the input has such an event, and holds a
    number, the sum of the capped gaps of those events. *)
Theorem C2_lockedscreen_removed events :
  Forall (fun x => Shared.app x <> Shared.LOCKEDSCREEN)
    (Shared.calculateAppDurations events)
  /\ hasKey (Shared.accumulate events) Shared.LOCKEDSCREEN
     = existsb (String.eqb Shared.LOCKEDSCREEN) (names events)
  /\ total (Shared.accumulate events) Shared.LOCKEDSCREEN
     == Qsum (map (contribution events Shared.LOCKEDSCREEN)
                (seq 0 (List.length events)))
  /\ (forall v,
        JsObject.own (Shared.accumulate events) Shared.LOCKEDSCREEN = Some v ->
        exists q, v = JsObject.Num q).
Proof.
  split; [|split; [|split]].
  - apply Forall_forall. intros x Hx.
    now apply calculateAppDurations_In in Hx.
  - apply accumulate_hasKey. discriminate.
  - apply loop_ordinary. reflexivity.
  - apply loop_ordinary. reflexivity.
Qed.

Lemma Qsum_filter_perm (p : string * JsObject.prim -> bool) l l' :
  Permutation l l' ->
  Qsum (map (fun kv => seconds (snd kv)) (filter p l))
  == Qsum (map (fun kv => seconds (snd kv)) (filter p l')).
Proof.
  induction 1 as [|x l l' _ IH|x y l|l l' l'' _ IH1 _ IH2]; simpl.
  - reflexivity.
  - destruct (p x); simpl; now rewrite IH.
  - destruct (p x), (p y); simpl; ring.
  - now rewrite IH1.
Qed.

Lemma Qsum_without (o : JsObject.t) k :
  NoDup (keys o) ->
  Qsum (map (fun kv => seconds (snd kv))
          (filter (fun kv => negb (String.eqb (fst kv) k)) o))
  + total o k == Qsum (map (fun kv => seconds (snd kv)) o).
Proof.
  unfold total. induction o as [|[k' v'] o IH]; simpl; intros Hnd.
  - ring.
  - inversion Hnd as [|? ? Hout Hnd']; subst.
    destruct (String.eqb_spec k' k) as [->|Hk]; simpl.
    + apply own_None_keys in Hout. rewrite Hout in IH.
      rewrite <- (IH Hnd'). ring.
    + rewrite <- (IH Hnd'). ring.
Qed.

(** Without inherited names, the buckets add up to what the iterations
    added. *)
Lemma loop_Qsum events n :
  ordinary events = true ->
  Qsum (map (fun kv => seconds (snd kv)) (Shared.loop events n))
  == Qsum (map (Shared.cappedDuration events) (seq 0 n)).
Proof.
  intros Hord. induction n as [|n IH]; [reflexivity|].
  rewrite loop_S, Qsum_snoc, <- IH.
  destruct (nth_error events n) as [e|] eqn:He.
  - assert (Hin : In (Shared.app_name e) (names events)).
    { unfold names. apply in_map. now apply nth_error_In with n. }
    pose proof (ordinary_names _ _ Hord Hin) as Ho.
    destruct (@body_ordinary events (Shared.loop events n) n e He Ho
                (proj1 (@loop_ordinary events _ n Ho))) as [q [Hq Eq]].
    unfold Shared.body in *. rewrite He in *. cbv zeta in *.
    rewrite own_set_same in Hq by now apply ordinary_not_proto.
    inversion Hq as [Hv].
    rewrite set_define by now apply ordinary_not_proto.
    rewrite Qsum_define, Hv. cbn [seconds]. rewrite Eq. ring.
  - rewrite body_out by exact He.
    unfold Shared.cappedDuration. rewrite He. ring.
Qed.

Lemma cappedDuration_cons e rest i :
  Shared.cappedDuration (e :: rest) (S i) = Shared.cappedDuration rest i.
Proof. reflexivity. Qed.

Lemma cappedDuration_single e : Shared.cappedDuration [e] 0 == 0.
Proof.
  unfold Shared.cappedDuration. cbn [nth_error Nat.add]. cbv zeta.
  rewrite Z.sub_diag. reflexivity.
Qed.

Lemma cappedDuration_sum events :
  Qsum (map (Shared.cappedDuration events) (seq 0 (List.length events)))
  == Qsum (capped_gaps events).
Proof.
  induction events as [|e rest IH]; [reflexivity|].
  cbn [List.length seq map]. rewrite <- seq_shift, map_map.
  rewrite (map_ext _ (Shared.cappedDuration rest))
    by (intros i; apply cappedDuration_cons).
  change (Qsum (?x :: ?l)) with (x + Qsum l). rewrite IH.
  destruct rest as [|e' rest].
  - rewrite cappedDuration_single. reflexivity.
  - change (capped_gaps (e :: e' :: rest))
      with (Qmin (inject_Z (Shared.timestamp e' - Shared.timestamp e) / 1000)
              1800 :: capped_gaps (e' :: rest)).
    change (Qsum (?x :: ?l)) with (x + Qsum l).
    apply Qplus_comp; [|reflexivity].
    apply (@cappedDuration_pair (e :: e' :: rest) 0 e e'); reflexivity.
Qed.

Lemma Qsum_perm l l' : Permutation l l' -> Qsum l == Qsum l'.
Proof.
  induction 1 as [|x l l' _ IH|x y l|l l' l'' _ IH1 _ IH2]; simpl.
  - reflexivity.
  - now rewrite IH.
  - ring.
  - now rewrite IH1.
Qed.

Lemma output_Qsum events :
  Qsum (map (fun x => seconds (Shared.duration x))
          (Shared.calculateAppDurations events))
  == Qsum (map (fun kv => seconds (snd kv))
             (filter (fun kv => negb (String.eqb (fst kv) Shared.LOCKEDSCREEN))
                (Shared.accumulate events))).
Proof.
  unfold Shared.calculateAppDurations, StableSort.sort_cmp.
  rewrite map_map. cbn [Shared.duration].
  rewrite (Qsum_perm (Permutation_map (fun kv => seconds (snd kv))
                        (sort_perm _ _))).
  apply Qsum_filter_perm, entries_perm.
Qed.

(** C5, as amended: when no application is named like a property of
    [Object.prototype], every duration of the output is a number, and these
    numbers, together with the total that the loop accumulated for
    [__LOCKEDSCREEN] (which the output leaves out), add up to the capped
    gaps of all consecutive pairs of events; the sums of the output and of
    the capped gaps are equal when the input has no [__LOCKEDSCREEN]
    event. *)
Theorem C5_sum_with_lockedscreen events :
  ordinary events = true ->
  numeric (Shared.calculateAppDurations events)
  /\ Qsum (map (fun x => seconds (Shared.duration x))
             (Shared.calculateAppDurations events))
     + total (Shared.accumulate events) Shared.LOCKEDSCREEN
     == Qsum (capped_gaps events)
  /\ (existsb (String.eqb Shared.LOCKEDSCREEN) (names events) = false ->
      sum_conserved events).
Proof.
  intros Hord.
  assert (H : Qsum (map (fun x => seconds (Shared.duration x))
                      (Shared.calculateAppDurations events))
              + total (Shared.accumulate events) Shared.LOCKEDSCREEN
              == Qsum (capped_gaps events)).
  { rewrite output_Qsum, Qsum_without by apply accumulate_NoDup.
    unfold Shared.accumulate. rewrite (@loop_Qsum events _ Hord).
    apply cappedDuration_sum. }
  split; [now apply output_numeric|]. split; [exact H|].
  intros Hno. unfold sum_conserved. rewrite <- H.
  rewrite <- accumulate_hasKey in Hno by discriminate.
  unfold hasKey in Hno. unfold total.
  destruct (JsObject.own _ _); [discriminate|reflexivity].
Qed.

Lemma C5_witness :
  sum_conserved [ev 0 "Chrome"; ev 5000000 "Finder"; ev 5600000 "Chrome"].
Proof.
  apply (proj2 (proj2
           (@C5_sum_with_lockedscreen
              [ev 0 "Chrome"; ev 5000000 "Finder"; ev 5600000 "Chrome"]
              eq_refl))).
  reflexivity.
Defined.

(** C5 as stated fails: the 600 seconds that follow a [__LOCKEDSCREEN]
    event are among the capped gaps and in no entry of the output. *)
Lemma C5_counterexample :
  ~ sum_conserved [ev 0 Shared.LOCKEDSCREEN; ev 600000 "Chrome"].
Proof. vm_compute. discriminate. Qed.

Lemma cappedDuration_nonneg events i :
  chronological events = true -> 0 <= Shared.cappedDuration events i.
Proof.
  revert i. induction events as [|e rest IH]; intros i Hc.
  - unfold Shared.cappedDuration. rewrite nth_error_nil. apply Qle_refl.
  - destruct i as [|i].
    + destruct rest as [|e' rest];
        [rewrite cappedDuration_single; apply Qle_refl|].
      rewrite (@cappedDuration_pair (e :: e' :: rest) 0 e e') by reflexivity.
      simpl in Hc. apply andb_prop in Hc. destruct Hc as [Hle _].
      apply Z.leb_le in Hle.
      apply Q.min_glb; [|discriminate].
      unfold Qdiv. apply Qmult_le_0_compat; [|discriminate].
      change 0 with (inject_Z 0). rewrite <- Zle_Qle. lia.
    + rewrite cappedDuration_cons. apply IH.
      destruct rest as [|e' rest]; [reflexivity|].
      simpl in Hc. apply andb_prop in Hc. apply Hc.
Qed.

Lemma Qsum_nonneg l : Forall (fun x => 0 <= x) l -> 0 <= Qsum l.
Proof.
  induction 1 as [|x l Hx _ IH]; simpl; [apply Qle_refl|].
  change 0 with (0 + 0). now apply Qplus_le_compat.
Qed.

(** The entry of an application that is not named like a property of
    [Object.prototype] is a number, the sum of the capped gaps that follow
    the events of that application. *)
Lemma output_duration events x :
  In x (Shared.calculateAppDurations events) ->
  JsObject.inherited (Shared.app x) = None ->
  exists q,
    Shared.duration x = JsObject.Num q
    /\ q == Qsum (map (contribution events (Shared.app x))
                    (seq 0 (List.length events))).
Proof.
  intros Hx Hord. apply output_own in Hx.
  destruct (@loop_ordinary events (Shared.app x) (List.length events) Hord)
    as [Hn Ht].
  fold (Shared.accumulate events) in Hn, Ht.
  destruct (Hn _ Hx) as [q Hq]. exists q. split; [exact Hq|].
  rewrite <- Ht. unfold total. rewrite Hx, Hq. reflexivity.
Qed.

Lemma contribution_nonneg events a i :
  chronological events = true -> 0 <= contribution events a i.
Proof.
  intros Hc. unfold contribution.
  destruct (nth_error events i); [|apply Qle_refl].
  destruct (String.eqb _ _); [|apply Qle_refl].
  now apply cappedDuration_nonneg.
Qed.

(** C6 fails on the code for an application named like a property of
    [Object.prototype].  The events [constructor] and, 20 minutes later,
    another application are chronologically sorted; the first entry of the
    output holds no number at or above zero but a text, the source text of
    the inherited function followed by the numeral of 1200. *)
Theorem C6_inherited_name_text :
  chronological events_constructor = true
  /\ listing (Shared.calculateAppDurations events_constructor)
     = [("constructor",
         JsObject.Text [] (JsObject.Function "constructor")
           [JsObject.Numeral 1200]);
        ("A", JsObject.Num 0)]
  /\ ~ numeric (Shared.calculateAppDurations events_constructor).
Proof.
  split; [reflexivity|]. split; [vm_compute; reflexivity|].
  intros H. apply Forall_inv in H. destruct H as [q H].
  vm_compute in H. discriminate H.
Qed.

(** The sort asks about the elements of the list only. *)
Lemma sort_ext (A : Type) (before before' : A -> A -> bool) l :
  (forall x y, In x l -> In y l -> before x y = before' x y) ->
  StableSort.sort before l = StableSort.sort before' l.
Proof.
  induction l as [|z l IH]; intros H; simpl; [reflexivity|].
  rewrite IH by (intros x y Hx Hy; apply H; simpl; auto).
  assert (E : forall m, incl m l ->
                StableSort.insert before z m = StableSort.insert before' z m).
  { induction m as [|y m IHm]; simpl; intros Hm; [reflexivity|].
    assert (Hy : In y l) by (apply Hm; now left).
    rewrite (H z y) by (simpl; auto).
    rewrite IHm by (intros x Hx; apply Hm; now right). reflexivity. }
  apply E. intros y Hy. now apply sort_In in Hy.
Qed.

Lemma map_sort (A B : Type) (f : A -> B) (before : B -> B -> bool) l :
  map f (StableSort.sort (fun a b => before (f a) (f b)) l)
  = StableSort.sort before (map f l).
Proof.
  induction l as [|z l IH]; simpl; [reflexivity|].
  rewrite <- IH.
  generalize (StableSort.sort (fun a b => before (f a) (f b)) l).
  induction l0 as [|y m IHm]; simpl; [reflexivity|].
  destruct (before (f z) (f y)); simpl; [reflexivity|]. now rewrite IHm.
Qed.

(** On numbers the comparator is the difference of the durations. *)
Lemma sort_cmp_numeric (l : list (string * JsObject.prim)) :
  (forall kv, In kv l -> exists q, snd kv = JsObject.Num q) ->
  StableSort.sort_cmp Shared.compare l
  = StableSort.sort
      (fun x y => Qle_bool (seconds (snd y) - seconds (snd x)) 0) l.
Proof.
  intros H. unfold StableSort.sort_cmp. apply sort_ext.
  intros x y Hx Hy. unfold Shared.compare.
  destruct (H x Hx) as [p ->], (H y Hy) as [q ->]. reflexivity.
Qed.

Lemma filtered_entries_numeric events kv :
  ordinary events = true ->
  In kv (filter (fun kv => negb (String.eqb (fst kv) Shared.LOCKEDSCREEN))
           (JsObject.entries (Shared.accumulate events))) ->
  exists q, snd kv = JsObject.Num q.
Proof.
  intros Hord H. apply filter_In in H. destruct H as [H _].
  apply (proj1 (entries_In _ _)) in H. destruct kv as [k v].
  exact (accumulate_numeric _ _ _ Hord H).
Qed.

Lemma StronglySorted_map (A B : Type) (f : A -> B) (R : B -> B -> Prop) l :
  StronglySorted (fun x y => R (f x) (f y)) l -> StronglySorted R (map f l).
Proof.
  induction 1 as [|x l _ IH Hx]; simpl; constructor; [exact IH|].
  apply Forall_forall. intros y Hy. apply in_map_iff in Hy.
  destruct Hy as [z [<- Hz]]. rewrite Forall_forall in Hx. now apply Hx.
Qed.

Lemma calculateAppDurations_descending events :
  ordinary events = true ->
  descending (Shared.calculateAppDurations events).
Proof.
  intros Hord. unfold descending, Shared.calculateAppDurations.
  rewrite sort_cmp_numeric
    by (intros kv; now apply filtered_entries_numeric).
  apply StronglySorted_map. cbn [Shared.duration].
  eapply StronglySorted_ind
    with (P := StronglySorted
                 (fun x y : string * JsObject.prim =>
                    seconds (snd y) <= seconds (snd x)));
    [constructor| |apply sort_sorted].
  - intros a l _ IH Ha. constructor; [exact IH|].
    eapply Forall_impl; [|exact Ha]. intros b Hb. cbv beta in Hb.
    apply Qle_bool_iff in Hb. lra.
  - intros x y H.
    destruct (Qle_bool (seconds (snd x) - seconds (snd y)) 0) eqn:E;
      [reflexivity|].
    assert (H1 : ~ seconds (snd y) - seconds (snd x) <= 0)
      by (rewrite <- Qle_bool_iff; congruence).
    assert (H2 : ~ seconds (snd x) - seconds (snd y) <= 0)
      by (rewrite <- Qle_bool_iff; congruence).
    exfalso. lra.
  - intros x y z H1 H2. apply Qle_bool_iff in H1, H2.
    apply Qle_bool_iff. lra.
Qed.

(** Entries of equal duration keep the order in which [Object.entries]
    lists them. *)
Lemma ties_entries_order events q :
  ordinary events = true ->
  ties q (Shared.calculateAppDurations events)
  = map fst
      (filter (fun kv => Qeq_bool (seconds (snd kv)) q)
         (filter (fun kv => negb (String.eqb (fst kv) Shared.LOCKEDSCREEN))
            (JsObject.entries (Shared.accumulate events)))).
Proof.
  intros Hord. unfold ties, Shared.calculateAppDurations.
  rewrite sort_cmp_numeric
    by (intros kv; now apply filtered_entries_numeric).
  set (l := filter _ (JsObject.entries _)).
  rewrite <- (filter_sort
                (fun x y : string * JsObject.prim =>
                   Qle_bool (seconds (snd y) - seconds (snd x)) 0)
                (fun kv => Qeq_bool (seconds (snd kv)) q) l).
  - generalize (StableSort.sort
                  (fun x y : string * JsObject.prim =>
                     Qle_bool (seconds (snd y) - seconds (snd x)) 0) l).
    induction l0 as [|[k v] l0 IH]; simpl; [reflexivity|].
    destruct (Qeq_bool (seconds v) q); simpl; now rewrite IH.
  - intros x y Hx Hb.
    destruct (Qeq_bool (seconds (snd y)) q) eqn:Hy; [|reflexivity].
    apply Qeq_bool_eq in Hx, Hy.
    assert (H : seconds (snd y) - seconds (snd x) <= 0)
      by (rewrite Hx, Hy; lra).
    apply Qle_bool_iff in H. congruence.
Qed.

Lemma map_fst_filter_total (o l : JsObject.t) q :
  NoDup (keys o) -> incl l o ->
  map fst (filter (fun kv => Qeq_bool (seconds (snd kv)) q) l)
  = filter (fun a => Qeq_bool (total o a) q) (map fst l).
Proof.
  intros Hnd. induction l as [|[k v] l IH]; intros Hin; simpl; [reflexivity|].
  assert (E : total o k = seconds v).
  { unfold total. rewrite (own_In o k v Hnd); [reflexivity|].
    apply Hin. now left. }
  rewrite E.
  destruct (Qeq_bool (seconds v) q); simpl;
    rewrite IH by (intros x Hx; apply Hin; now right); reflexivity.
Qed.

Lemma map_fst_filter_key (p : string -> bool) (l : JsObject.t) :
  map fst (filter (fun kv => p (fst kv)) l) = filter p (map fst l).
Proof.
  induction l as [|[k v] l IH]; simpl; [reflexivity|].
  destruct (p k); simpl; now rewrite IH.
Qed.

(** [Object.entries] lists the own keys in their enumeration order. *)
Lemma entries_keys o :
  map fst (JsObject.entries o) = JsObject.keyOrder (keys o).
Proof.
  unfold JsObject.entries, JsObject.keyOrder, keys.
  rewrite map_app.
  rewrite (map_sort fst
             (fun a b => (JsObject.indexOf a <=? JsObject.indexOf b)%N)).
  rewrite (map_fst_filter_key JsObject.isIndex).
  now rewrite (map_fst_filter_key (fun k => negb (JsObject.isIndex k))).
Qed.

Lemma filter_comm (A : Type) (p q : A -> bool) l :
  filter p (filter q l) = filter q (filter p l).
Proof.
  induction l as [|x l IH]; simpl; [reflexivity|].
  destruct (p x) eqn:Hp, (q x) eqn:Hq; simpl; rewrite ?Hp, ?Hq, IH;
    reflexivity.
Qed.

Lemma filter_none (A : Type) (p : A -> bool) l :
  (forall x, In x l -> p x = false) -> filter p l = [].
Proof.
  induction l as [|x l IH]; intros H; simpl; [reflexivity|].
  rewrite (H x) by now left. apply IH. intros y Hy. apply H. now right.
Qed.

Lemma filter_twice (A : Type) (p : A -> bool) l :
  filter p (filter p l) = filter p l.
Proof.
  induction l as [|x l IH]; simpl; [reflexivity|].
  destruct (p x) eqn:Hp; simpl; rewrite ?Hp, IH; reflexivity.
Qed.

(** The keys that are not array indices are enumerated as created. *)
Lemma keyOrder_others l :
  filter (fun k => negb (JsObject.isIndex k)) (JsObject.keyOrder l)
  = filter (fun k => negb (JsObject.isIndex k)) l.
Proof.
  unfold JsObject.keyOrder. rewrite filter_app, filter_twice.
  rewrite filter_none; [reflexivity|].
  intros k Hk. apply sort_In, filter_In in Hk. destruct Hk as [_ Hk].
  now rewrite Hk.
Qed.

Lemma keyOrder_no_index l :
  Forall (fun k => JsObject.isIndex k = false) l -> JsObject.keyOrder l = l.
Proof.
  intros H. unfold JsObject.keyOrder. rewrite Forall_forall in H.
  rewrite filter_none by exact H. cbn [StableSort.sort fold_right app].
  apply forallb_filter_id, forallb_forall. intros k Hk.
  now rewrite (H k Hk).
Qed.

Lemma ties_in_key_order events :
  ordinary events = true -> ties_by_key_order events.
Proof.
  intros Hord q. rewrite ties_entries_order by exact Hord.
  rewrite (@map_fst_filter_total (Shared.accumulate events)).
  - rewrite (map_fst_filter_key
               (fun a => negb (String.eqb a Shared.LOCKEDSCREEN))).
    now rewrite entries_keys, accumulate_keys_ordinary.
  - apply accumulate_NoDup.
  - intros x Hx. apply filter_In in Hx. destruct Hx as [Hx _].
    now apply entries_In.
Qed.

(** C9, as amended: when no application is named like a property of
    [Object.prototype], every duration of the output is a number and the
    output is sorted by descending duration; entries of equal duration come
    in the enumeration order of the keys of [durations], the applications
    whose name is an array index (the canonical decimal numeral of an
    integer below 2^32 - 1) first, in ascending numeric order, and then the
    others in the order in which they first occur in the input.  So the
    entries of equal duration whose name is not an array index come in the
    order of first occurrence, also when other names are array indices, and
    all entries of equal duration do when no name is one. *)
Theorem C9_descending_stable events :
  ordinary events = true ->
  numeric (Shared.calculateAppDurations events)
  /\ descending (Shared.calculateAppDurations events)
  /\ ties_by_key_order events
  /\ other_ties_by_first_occurrence events
  /\ (Forall (fun a => JsObject.isIndex a = false) (names events) ->
      ties_by_first_occurrence events).
Proof.
  intros Hord. pose proof (ties_in_key_order _ Hord) as Hkey.
  split; [now apply output_numeric|].
  split; [now apply calculateAppDurations_descending|].
  split; [exact Hkey|]. split.
  - intros q. rewrite Hkey.
    rewrite (filter_comm (fun a => negb (JsObject.isIndex a))).
    f_equal.
    rewrite (filter_comm (fun a => negb (JsObject.isIndex a))).
    f_equal. apply keyOrder_others.
  - intros Hk q. rewrite Hkey, keyOrder_no_index; [reflexivity|].
    apply Forall_forall. intros a Ha.
    apply (proj1 (first_occurrences_In _ _)) in Ha.
    rewrite Forall_forall in Hk. now apply Hk.
Qed.

Lemma C9_witness :
  descending
    (Shared.calculateAppDurations
       [ev 0 "b"; ev 10000 "1"; ev 20000 "c"; ev 30000 "d"])
  /\ other_ties_by_first_occurrence
       [ev 0 "b"; ev 10000 "1"; ev 20000 "c"; ev 30000 "d"].
Proof.
  pose proof (@C9_descending_stable
                [ev 0 "b"; ev 10000 "1"; ev 20000 "c"; ev 30000 "d"]
                eq_refl) as H.
  split; [apply H|apply H].
Defined.

(** C9 as stated fails: ["b"] and ["1"] both total 10 seconds and ["b"]
    occurs first, yet [Object.entries] lists the array index ["1"] first
    and the stable sort keeps it there. *)
Lemma C9_counterexample :
  ~ ties_by_first_occurrence [ev 0 "b"; ev 10000 "1"; ev 20000 "c"].
Proof.
  intros H. specialize (H 10%Q). vm_compute in H. discriminate H.
Qed.

(** ** The range summarizer *)

Section OrderDesc.
Variable A : Type.
Variable key : A -> Z.

Lemma order_desc_In x l : In x (TrackerDb.order_desc key l) <-> In x l.
Proof. apply sort_In. Qed.

Lemma order_desc_perm l : Permutation (TrackerDb.order_desc key l) l.
Proof. apply sort_perm. Qed.

Lemma order_desc_sorted l :
  StronglySorted (fun a b => (key b <= key a)%Z) (TrackerDb.order_desc key l).
Proof.
  unfold TrackerDb.order_desc.
  eapply StronglySorted_ind
    with (P := StronglySorted (fun a b => (key b <= key a)%Z));
    [constructor| |apply sort_sorted].
  - intros a l0 _ IH Ha. constructor; [exact IH|].
    eapply Forall_impl; [|exact Ha]. intros b Hb. now apply Z.leb_le.
  - intros x y H. apply Z.leb_gt in H. apply Z.leb_le. lia.
  - intros x y z H1 H2. apply Z.leb_le in H1, H2. apply Z.leb_le. lia.
Qed.

Lemma filter_length_perm (p : A -> bool) l l' :
  Permutation l l' ->
  List.length (filter p l) = List.length (filter p l').
Proof.
  induction 1 as [|x l l' _ IH|x y l|l l' l'' _ IH1 _ IH2]; simpl.
  - reflexivity.
  - destruct (p x); simpl; now rewrite IH.
  - destruct (p x), (p y); reflexivity.
  - now rewrite IH1.
Qed.

Lemma sorted_prefix pre x post :
  StronglySorted (fun a b => (key b <= key a)%Z) (pre ++ x :: post) ->
  Forall (fun y => (key x <= key y)%Z) pre.
Proof.
  induction pre as [|y pre IH]; simpl; intros H; [constructor|].
  inversion H as [|? ? Hs Hy]; subst. constructor; [|now apply IH].
  rewrite Forall_forall in Hy. apply Hy, in_elt.
Qed.

(** An element with fewer than [n] strictly newer ones survives
    [ORDER BY key DESC LIMIT n]. *)
Lemma order_desc_firstn x l n :
  In x l -> NoDup (map key l) ->
  (List.length (filter (fun y => (key x <? key y)%Z) l) < n)%nat ->
  In x (firstn n (TrackerDb.order_desc key l)).
Proof.
  intros Hin Hnd Hlen.
  pose proof (order_desc_perm l) as Hp.
  pose proof (order_desc_sorted l) as Hs.
  rewrite <- (filter_length_perm _ Hp) in Hlen.
  assert (Hnd' : NoDup (map key (TrackerDb.order_desc key l))).
  { eapply Permutation_NoDup; [|exact Hnd].
    apply Permutation_map. now symmetry. }
  apply order_desc_In in Hin.
  destruct (in_split _ _ Hin) as [pre [post E]].
  rewrite E in *. clear E Hin Hp.
  pose proof (sorted_prefix _ _ _ Hs) as Hpre.
  assert (Hall : filter (fun y => (key x <? key y)%Z) pre = pre).
  { rewrite map_app in Hnd'. simpl in Hnd'.
    apply NoDup_remove_2 in Hnd'.
    clear Hs Hlen. induction pre as [|y pre IH]; simpl; [reflexivity|].
    inversion Hpre; subst.
    assert (key y <> key x).
    { intros Heq. apply Hnd'. simpl. left. exact Heq. }
    replace (key x <? key y)%Z with true by (symmetry; apply Z.ltb_lt; lia).
    f_equal. apply IH; [|assumption].
    intros Hc. apply Hnd'. simpl. now right. }
  rewrite filter_app, length_app, Hall in Hlen.
  rewrite firstn_app. apply in_or_app. right.
  destruct (n - List.length pre)%nat eqn:En; [lia|]. simpl. now left.
Qed.
End OrderDesc.

Lemma firstn_incl (A : Type) n (l : list A) x : In x (firstn n l) -> In x l.
Proof.
  intros H. rewrite <- (firstn_skipn n l). apply in_or_app. now left.
Qed.

Lemma distinct_dates_In d l : In d (TrackerDb.distinct_dates l) <-> In d l.
Proof. apply nodup_In. Qed.

Lemma summary_dates db rows l :
  map TrackerDb.logical_date (map (TrackerDb.summary_of db rows) l) = l.
Proof. rewrite map_map. simpl. apply map_id. Qed.

Lemma overview_rows_dates db fromDate toDate s :
  In s (TrackerDb.overview_rows db fromDate toDate) ->
  exists w, In w (TrackerDb.window_events db)
            /\ TrackerDb.w_logical_date w = TrackerDb.logical_date s.
Proof.
  unfold TrackerDb.overview_rows. intros H.
  apply order_desc_In, in_map_iff in H. destruct H as [d [<- Hd]].
  apply distinct_dates_In, in_map_iff in Hd. destruct Hd as [w [<- Hw]].
  apply filter_In in Hw. exists w. simpl. intuition.
Qed.

Lemma no_keys_total db rows d :
  Forall (fun k => TrackerDb.k_logical_date k <> d) (TrackerDb.key_events db) ->
  TrackerDb.total_keys (TrackerDb.summary_of db rows d) = 0%Z.
Proof.
  intros H. simpl.
  replace (filter _ (TrackerDb.key_events db)) with (@nil TrackerDb.KeyRow);
    [reflexivity|].
  symmetry. induction H as [|k l Hk _ IH]; simpl; [reflexivity|].
  destruct (Z.eqb_spec (TrackerDb.k_logical_date k) d); [contradiction|exact IH].
Qed.

(** C8: a logical date with a window event and no key event is in the output
    of the range summarizer with [total_keys = 0], for every database, as
    long as the call asks for it: the date lies within the requested range
    and fewer than [limit] dates of that range are newer. *)
Theorem C8_date_without_keys_listed db fromDate toDate limit w :
  In w (TrackerDb.window_events db) ->
  Forall (fun k => TrackerDb.k_logical_date k <> TrackerDb.w_logical_date w)
    (TrackerDb.key_events db) ->
  TrackerDb.in_range fromDate toDate (TrackerDb.w_logical_date w) = true ->
  (List.length (newer_dates db fromDate toDate (TrackerDb.w_logical_date w))
   < Z.to_nat limit)%nat ->
  exists s,
    In s (TrackerDb.getOverview db fromDate toDate limit)
    /\ TrackerDb.logical_date s = TrackerDb.w_logical_date w
    /\ TrackerDb.total_keys s = 0%Z.
Proof.
  intros Hw Hk Hr Hn.
  set (d := TrackerDb.w_logical_date w) in *.
  set (rows := filter
         (fun w => TrackerDb.in_range fromDate toDate
                     (TrackerDb.w_logical_date w))
         (TrackerDb.window_events db)).
  exists (TrackerDb.summary_of db rows d).
  split; [|split; [reflexivity|now apply no_keys_total]].
  unfold TrackerDb.getOverview, TrackerDb.overview_rows. fold rows.
  apply order_desc_firstn.
  - apply in_map, distinct_dates_In, in_map_iff. exists w.
    split; [reflexivity|]. apply filter_In. now split.
  - rewrite summary_dates. apply NoDup_nodup.
  - unfold newer_dates in Hn. fold rows in Hn.
    rewrite <- (summary_dates db rows (TrackerDb.distinct_dates _)) in Hn at 1.
    revert Hn. generalize (map (TrackerDb.summary_of db rows)
                  (TrackerDb.distinct_dates
                     (map TrackerDb.w_logical_date rows))).
    intros l. cbn [TrackerDb.logical_date TrackerDb.summary_of].
    assert (E : forall l : list TrackerDb.DailySummary,
               List.length (filter (fun d' => (d <? d')%Z)
                              (map TrackerDb.logical_date l))
               = List.length (filter (fun y => (d <? TrackerDb.logical_date y)%Z) l)).
    { induction l0 as [|y l0 IH]; simpl; [reflexivity|].
      destruct (d <? TrackerDb.logical_date y)%Z; simpl; now rewrite IH. }
    now rewrite E.
Qed.

Lemma C8_witness :
  exists s,
    In s (TrackerDb.getOverview db_sample None None 30)
    /\ TrackerDb.logical_date s = 11%Z
    /\ TrackerDb.total_keys s = 0%Z.
Proof.
  apply (@C8_date_without_keys_listed db_sample None None 30
           (wr 3000 "Chrome" 11)).
  - simpl. auto.
  - repeat constructor; discriminate.
  - reflexivity.
  - vm_compute. lia.
Defined.

(** C10: a logical date with key events and no window event is among the
    dates of [getAvailableDates] and in no output of [getOverview], whose
    rows all come from [window_events]. *)
Theorem C10_key_only_date db k :
  In k (TrackerDb.key_events db) ->
  Forall (fun w => TrackerDb.w_logical_date w <> TrackerDb.k_logical_date k)
    (TrackerDb.window_events db) ->
  In (TrackerDb.k_logical_date k) (TrackerDb.getAvailableDates db)
  /\ forall fromDate toDate limit,
       ~ In (TrackerDb.k_logical_date k)
           (map TrackerDb.logical_date
              (TrackerDb.getOverview db fromDate toDate limit)).
Proof.
  intros Hk Hw. split.
  - unfold TrackerDb.getAvailableDates.
    apply order_desc_In, distinct_dates_In, in_or_app. right.
    now apply in_map.
  - intros fromDate toDate limit Hin.
    apply in_map_iff in Hin. destruct Hin as [s [Hs Hin]].
    unfold TrackerDb.getOverview in Hin. apply firstn_incl in Hin.
    apply overview_rows_dates in Hin. destruct Hin as [w [Hin Hd]].
    rewrite Forall_forall in Hw. apply (Hw w Hin). congruence.
Qed.

Lemma C10_witness :
  In 13%Z (TrackerDb.getAvailableDates db_sample)
  /\ forall fromDate toDate limit,
       ~ In 13%Z
           (map TrackerDb.logical_date
              (TrackerDb.getOverview db_sample fromDate toDate limit)).
Proof.
  apply (@C10_key_only_date db_sample (kr 5000 1 13)).
  - simpl. auto.
  - repeat constructor; discriminate.
Defined.

(** ** The limit of the overview route *)

Lemma limit_of_query_bounds q : (1 <= Server.limit_of_query q <= 365)%Z.
Proof. unfold Server.limit_of_query. lia. Qed.

(** C4, as amended: a request whose [from] and [to] pass the date check is
    answered with the summaries for the limit clamped into [1, 365]: a
    parsed limit [n <> 0] becomes min(max(n, 1), 365), and a limit that is
    missing, empty, not a number or 0 becomes 30.  At most 365 rows come
    back and no value of the limit is rejected. *)
Theorem C4_limit_clamped db from to limit :
  Server.rejected from = false ->
  Server.rejected to = false ->
  Server.overview_route (Some db) from to limit
  = Server.Json200
      (TrackerDb.getOverview db (Server.date_arg from) (Server.date_arg to)
         (Server.limit_of_query limit))
  /\ (1 <= Server.limit_of_query limit <= 365)%Z
  /\ (forall s n, limit = Some s -> Server.parseInt10 s = Some n -> n <> 0%Z ->
        Server.limit_of_query limit = Z.min (Z.max n 1) 365)
  /\ (limit = None
      \/ (exists s, limit = Some s
                    /\ (Server.parseInt10 s = None
                        \/ Server.parseInt10 s = Some 0%Z)) ->
        Server.limit_of_query limit = 30%Z)
  /\ (List.length
        (TrackerDb.getOverview db (Server.date_arg from) (Server.date_arg to)
           (Server.limit_of_query limit)) <= 365)%nat.
Proof.
  intros Hf Ht. unfold Server.overview_route. rewrite Hf, Ht.
  split; [reflexivity|]. split; [apply limit_of_query_bounds|].
  split; [|split].
  - intros s n -> Hp Hn. unfold Server.limit_of_query.
    destruct s as [|c s]; [discriminate Hp|].
    rewrite Hp. destruct n; [contradiction| |]; reflexivity.
  - intros [->|[s [-> Hp]]]; [reflexivity|].
    unfold Server.limit_of_query.
    destruct s as [|c s]; [reflexivity|].
    destruct Hp as [Hp|Hp]; rewrite Hp; reflexivity.
  - unfold TrackerDb.getOverview.
    pose proof (limit_of_query_bounds limit).
    rewrite length_firstn. lia.
Qed.

Lemma C4_witness :
  Server.overview_route (Some db_sample) Server.QAbsent (Server.QDate 11)
    (Some "500")
  = Server.Json200 (TrackerDb.getOverview db_sample None (Some 11%Z) 365).
Proof.
  apply (proj1 (@C4_limit_clamped db_sample Server.QAbsent (Server.QDate 11)
                  (Some "500") eq_refl eq_refl)).
Defined.

(** C4 as stated fails: [limit=500] is not rejected.  The route answers 200
    with the rows for limit 365, and [getOverview] called with 500 returns
    its rows as for any other limit. *)
Lemma C4_counterexample :
  rejects
    (Server.overview_route (Some db_sample) Server.QAbsent Server.QAbsent
       (Some "500")) = false
  /\ Server.overview_route (Some db_sample) Server.QAbsent Server.QAbsent
       (Some "500")
     = Server.Json200 (TrackerDb.getOverview db_sample None None 365)
  /\ map TrackerDb.logical_date (TrackerDb.getOverview db_sample None None 500)
     = [12; 11; 10]%Z.
Proof. repeat split. Qed.

(** ** The two aggregators *)

(** C3 fails on the code.  For a day with Chrome, the lock screen 5000
    seconds later and Finder 600 seconds after that, [getAppUsageForDate]
    reports 5000 seconds for Chrome and an entry of 600 seconds for
    [__LOCKEDSCREEN]; [calculateAppDurations] on the events of the same day
    reports 1800 seconds for Chrome and has no such entry. *)
Theorem C3_sql_neither_caps_nor_excludes :
  map (fun u => (TrackerDb.app_name u, Qred (TrackerDb.duration_seconds u)))
    (TrackerDb.getAppUsageForDate db_idle 1)
  = [("Chrome", 5000); ("__LOCKEDSCREEN", 600); ("Finder", 0)]
  /\ listing
       (Shared.calculateAppDurations (TrackerDb.dayWindowEvents db_idle 1))
     = [("Chrome", JsObject.Num 1800); ("Finder", JsObject.Num 0)].
Proof. split; vm_compute; reflexivity. Qed.

Lemma contribution_cons e rest a i :
  contribution (e :: rest) a (S i) = contribution rest a i.
Proof. reflexivity. Qed.

(** ** The categorizer *)

(** C7: [categorize] returns the category of the first rule, in configured
    order, whose pattern matches the subject, and ["uncategorized"] when no
    rule matches, in particular for the empty list of rules. *)
Theorem C7_first_match_wins (re_test : string -> string -> bool)
    (subject : string) (rules : list Categorizer.CategoryRule) :
  (forall pre r post,
      rules = pre ++ r :: post ->
      Forall (fun r' => re_test (Categorizer.pattern r') subject = false) pre ->
      re_test (Categorizer.pattern r) subject = true ->
      Categorizer.categorize re_test subject rules = Categorizer.category r)
  /\ (Forall (fun r' => re_test (Categorizer.pattern r') subject = false) rules ->
      Categorizer.categorize re_test subject rules = "uncategorized")
  /\ Categorizer.categorize re_test subject [] = "uncategorized".
Proof.
  split; [|split; [|reflexivity]].
  - intros pre r post -> Hpre Hr.
    induction Hpre as [|r' pre Hr' _ IH]; simpl.
    + now rewrite Hr.
    + now rewrite Hr'.
  - induction 1 as [|r' l Hr' _ IH]; simpl; [reflexivity|].
    now rewrite Hr'.
Qed.

Lemma C7_witness :
  Categorizer.categorize Categorizer.literal_test "Google Chrome — Gmail"
    [ {| Categorizer.pattern := "Chrome|Safari";
         Categorizer.category := "Browser" |};
      {| Categorizer.pattern := "Gmail"; Categorizer.category := "Email" |} ]
  = "Browser"
  /\ Categorizer.categorize Categorizer.literal_test "Terminal"
       [ {| Categorizer.pattern := "Chrome|Safari";
            Categorizer.category := "Browser" |} ]
     = "uncategorized".
Proof.
  split.
  - apply (proj1 (C7_first_match_wins Categorizer.literal_test
                    "Google Chrome — Gmail"
                    [ {| Categorizer.pattern := "Chrome|Safari";
                         Categorizer.category := "Browser" |};
                      {| Categorizer.pattern := "Gmail";
                         Categorizer.category := "Email" |} ])
             []
             {| Categorizer.pattern := "Chrome|Safari";
                Categorizer.category := "Browser" |}
             [ {| Categorizer.pattern := "Gmail";
                  Categorizer.category := "Email" |} ]
             eq_refl);
      [constructor|reflexivity].
  - apply (proj1 (proj2 (C7_first_match_wins Categorizer.literal_test
                           "Terminal"
                           [ {| Categorizer.pattern := "Chrome|Safari";
                                Categorizer.category := "Browser" |} ]))).
    repeat constructor.
Defined.

(** * Further properties of the code *)

(** ** [calculateAppDurations] *)

(** X29: At an index [i] that is not the last and whose application is not
    named like a property of [Object.prototype], iteration [i] adds
    min(gap to the next timestamp in seconds, 1800) to the number in the
    bucket of that application, 1800 for a gap of 5000 seconds; whatever the
    name, the iteration leaves every other bucket alone. *)
Theorem capped_gap_added events i e e' :
  nth_error events i = Some e ->
  nth_error events (S i) = Some e' ->
  (JsObject.inherited (Shared.app_name e) = None ->
   (exists q, JsObject.own (Shared.loop events (S i)) (Shared.app_name e)
              = Some (JsObject.Num q))
   /\ total (Shared.loop events (S i)) (Shared.app_name e)
      == total (Shared.loop events i) (Shared.app_name e)
         + Qmin (inject_Z (Shared.timestamp e' - Shared.timestamp e) / 1000)
             1800
   /\ ((Shared.timestamp e' - Shared.timestamp e = 5000 * 1000)%Z ->
       total (Shared.loop events (S i)) (Shared.app_name e)
       == total (Shared.loop events i) (Shared.app_name e) + 1800))
  /\ (forall a, a <> Shared.app_name e ->
        JsObject.get (Shared.loop events (S i)) a
        = JsObject.get (Shared.loop events i) a).
Proof.
  intros He He'. split.
  - intros Hord.
    assert (Hadd : total (Shared.loop events (S i)) (Shared.app_name e)
              == total (Shared.loop events i) (Shared.app_name e)
                 + Qmin (inject_Z (Shared.timestamp e' - Shared.timestamp e)
                         / 1000) 1800
              /\ exists q,
                   JsObject.own (Shared.loop events (S i)) (Shared.app_name e)
                   = Some (JsObject.Num q)).
    { rewrite loop_S.
      destruct (@body_ordinary events (Shared.loop events i) i e He Hord
                  (proj1 (@loop_ordinary events _ i Hord))) as [q [Hq Eq]].
      split; [|now exists q].
      unfold total at 1. rewrite Hq. cbn [seconds].
      now rewrite Eq, (cappedDuration_pair _ _ He He'). }
    destruct Hadd as [Hadd Hnum]. split; [exact Hnum|].
    split; [exact Hadd|].
    intros Hgap. rewrite Hadd, Hgap. reflexivity.
  - intros a Ha. rewrite loop_S. apply get_ext. now apply body_other with e.
Qed.

Lemma capped_gap_added_witness :
  total (Shared.loop [ev 0 "Chrome"; ev 5000000 "Chrome"] 1) "Chrome"
  == total (Shared.loop [ev 0 "Chrome"; ev 5000000 "Chrome"] 0) "Chrome"
     + 1800.
Proof.
  apply (proj2 (proj2 (proj1
    (@capped_gap_added [ev 0 "Chrome"; ev 5000000 "Chrome"] 0%nat
       (ev 0 "Chrome") (ev 5000000 "Chrome") eq_refl eq_refl) eq_refl))).
  reflexivity.
Defined.

Lemma filter_perm (A : Type) (p : A -> bool) l l' :
  Permutation l l' -> Permutation (filter p l) (filter p l').
Proof.
  induction 1 as [|x l l' _ IH|x y l|l l' l'' _ IH1 _ IH2]; simpl.
  - constructor.
  - destruct (p x); [now constructor|exact IH].
  - destruct (p x), (p y); try reflexivity. apply perm_swap.
  - now transitivity (filter p l').
Qed.

Lemma output_apps_perm events :
  Permutation (map Shared.app (Shared.calculateAppDurations events))
    (filter (fun a => negb (String.eqb a Shared.LOCKEDSCREEN))
       (first_occurrences
          (filter (fun a => negb (String.eqb a "__proto__"))
             (names events)))).
Proof.
  unfold Shared.calculateAppDurations, StableSort.sort_cmp.
  rewrite map_map. cbn [Shared.app].
  rewrite <- accumulate_keys. unfold keys.
  rewrite <- (map_fst_filter_key
                (fun a => negb (String.eqb a Shared.LOCKEDSCREEN))).
  apply Permutation_map.
  rewrite sort_perm. apply filter_perm, entries_perm.
Qed.

(** X1: Every application of the input other than [__LOCKEDSCREEN] and
    [__proto__] has exactly one entry in the output.  The entry of an
    application that is not named like a property of [Object.prototype]
    is a number, the sum of the capped gaps that follow its own events;
    the entry of an application that is named like one is not a number. *)
Theorem calculateAppDurations_one_entry_per_app events :
  (forall a, In a (map Shared.app (Shared.calculateAppDurations events))
             <-> In a (names events)
                 /\ a <> Shared.LOCKEDSCREEN /\ a <> "__proto__")
  /\ NoDup (map Shared.app (Shared.calculateAppDurations events))
  /\ Forall
       (fun x =>
          match JsObject.inherited (Shared.app x) with
          | None =>
              exists q,
                Shared.duration x = JsObject.Num q
                /\ q == Qsum (map (contribution events (Shared.app x))
                                (seq 0 (List.length events)))
          | Some _ => JsObject.toNumber (Shared.duration x) = None
          end)
       (Shared.calculateAppDurations events).
Proof.
  pose proof (output_apps_perm events) as Hp. split; [|split].
  - intros a. split.
    + intros Ha. apply (Permutation_in _ Hp) in Ha.
      apply filter_In in Ha. destruct Ha as [Ha Hne].
      apply (proj1 (first_occurrences_In _ _)) in Ha.
      apply filter_In in Ha. destruct Ha as [Ha Hnp].
      split; [exact Ha|]. split.
      * destruct (String.eqb_spec a Shared.LOCKEDSCREEN);
          [discriminate|assumption].
      * destruct (String.eqb_spec a "__proto__"); [discriminate|assumption].
    + intros [Ha [Hne Hnp]]. apply (Permutation_in _ (Permutation_sym Hp)).
      apply filter_In. split.
      * apply first_occurrences_In, filter_In. split; [exact Ha|].
        now destruct (String.eqb_spec a "__proto__").
      * now destruct (String.eqb_spec a Shared.LOCKEDSCREEN).
  - apply (Permutation_NoDup (Permutation_sym Hp)).
    apply NoDup_filter, first_occurrences_NoDup.
  - apply Forall_forall. intros x Hx.
    destruct (JsObject.inherited (Shared.app x)) as [g|] eqn:E.
    + apply (@loop_inherited events (Shared.app x) (List.length events)).
      * congruence.
      * now apply output_own.
    + now apply output_duration.
Qed.

Lemma cappedDuration_le_cap events i : Shared.cappedDuration events i <= 1800.
Proof.
  unfold Shared.cappedDuration.
  destruct (nth_error events i); [|discriminate].
  cbv zeta. eapply Qle_trans; [apply Q.le_min_r|]. discriminate.
Qed.

Lemma contribution_sum_le events a :
  Qsum (map (contribution events a) (seq 0 (List.length events)))
  <= 1800 * inject_Z (Z.of_nat (count_occ string_dec (names events) a)).
Proof.
  induction events as [|e rest IH]; [discriminate|].
  cbn [List.length seq map]. rewrite <- seq_shift, map_map.
  rewrite (map_ext _ (contribution rest a))
    by (intros i; apply contribution_cons).
  change (Qsum (?x :: ?l)) with (x + Qsum l).
  unfold names. cbn [map count_occ]. fold (names rest).
  unfold contribution at 1. cbn [nth_error].
  destruct (string_dec (Shared.app_name e) a) as [->|Hne].
  - rewrite String.eqb_refl, Nat2Z.inj_succ.
    unfold Z.succ. rewrite inject_Z_plus.
    pose proof (cappedDuration_le_cap (e :: rest) 0) as Hc.
    change (inject_Z 1) with 1. lra.
  - destruct (String.eqb_spec (Shared.app_name e) a); [contradiction|]. lra.
Qed.

(** X2: An entry that is a number reports no more than 30 minutes for each
    event of its application, whatever the timestamps; an entry is a text
    only for an application named like a property of [Object.prototype]. *)
Theorem calculateAppDurations_at_most_cap_per_event events :
  Forall
    (fun x =>
       match Shared.duration x with
       | JsObject.Num q =>
           q <= 1800 * inject_Z (Z.of_nat (count_occ string_dec (names events)
                                             (Shared.app x)))
       | JsObject.Text _ _ _ => JsObject.inherited (Shared.app x) <> None
       end)
    (Shared.calculateAppDurations events).
Proof.
  apply Forall_forall. intros x Hx.
  destruct (JsObject.inherited (Shared.app x)) as [g|] eqn:E.
  - pose proof (@loop_inherited events (Shared.app x) (List.length events))
      as Hi.
    rewrite E in Hi. specialize (Hi ltac:(discriminate) _ (output_own _ _ Hx)).
    destruct (Shared.duration x); [discriminate Hi|discriminate].
  - destruct (output_duration _ _ Hx E) as [q [-> Hq]].
    rewrite Hq. apply contribution_sum_le.
Qed.

(** X30: On chronologically sorted events, the entry of an application that
    is not named like a property of [Object.prototype] is a number, and it
    is at least zero. *)
Theorem ordinary_duration_nonneg events x :
  chronological events = true ->
  In x (Shared.calculateAppDurations events) ->
  JsObject.inherited (Shared.app x) = None ->
  exists q, Shared.duration x = JsObject.Num q /\ 0 <= q.
Proof.
  intros Hc Hx Hord. destruct (output_duration _ _ Hx Hord) as [q [Hq Eq]].
  exists q. split; [exact Hq|]. rewrite Eq.
  apply Qsum_nonneg, Forall_forall. intros c Hin.
  apply in_map_iff in Hin. destruct Hin as [i [<- _]].
  now apply contribution_nonneg.
Qed.

Lemma ordinary_duration_nonneg_witness :
  exists q,
    Shared.duration
      (nth 0 (Shared.calculateAppDurations
                [ev 0 "Chrome"; ev 600000 "constructor"; ev 5600000 "Chrome"])
         no_entry)
    = JsObject.Num q
    /\ 0 <= q.
Proof.
  apply (@ordinary_duration_nonneg
           [ev 0 "Chrome"; ev 600000 "constructor"; ev 5600000 "Chrome"]).
  - reflexivity.
  - vm_compute. auto.
  - reflexivity.
Defined.

Lemma durations_nonneg events :
  chronological events = true -> ordinary events = true ->
  Forall (fun x => 0 <= seconds (Shared.duration x))
    (Shared.calculateAppDurations events).
Proof.
  intros Hc Hord. apply Forall_forall. intros x Hx.
  assert (Ho : JsObject.inherited (Shared.app x) = None).
  { apply (ordinary_names _ _ Hord).
    apply accumulate_key_names, hasKey_keys. unfold hasKey.
    now rewrite (output_own _ _ Hx). }
  destruct (output_duration _ _ Hx Ho) as [q [-> Eq]]. cbn [seconds].
  rewrite Eq. apply Qsum_nonneg, Forall_forall. intros c Hin.
  apply in_map_iff in Hin. destruct Hin as [i [<- _]].
  now apply contribution_nonneg.
Qed.

Lemma Qsum_nonneg_map (A : Type) (f : A -> Q) l :
  Forall (fun x => 0 <= f x) l -> 0 <= Qsum (map f l).
Proof.
  intros H. apply Qsum_nonneg. apply Forall_forall. intros c Hc.
  apply in_map_iff in Hc. destruct Hc as [x [<- Hx]].
  rewrite Forall_forall in H. now apply H.
Qed.

(** ** The charts of a day *)

(** On numbers [reduce] adds up. *)
Lemma fold_plus_numeric l acc :
  numeric l ->
  exists q,
    fold_left (fun sum entry => JsObject.plus sum (Shared.duration entry))
      l (JsObject.Num acc) = JsObject.Num q
    /\ q == acc + Qsum (map (fun x => seconds (Shared.duration x)) l).
Proof.
  revert acc. induction l as [|x l IH]; intros acc Hn; simpl.
  - exists acc. split; [reflexivity|ring].
  - inversion Hn as [|? ? [qx Hx] Hn']; subst.
    rewrite Hx. cbn [JsObject.plus seconds].
    destruct (IH (acc + qx) Hn') as [q [Hq Eq]].
    exists q. split; [exact Hq|]. rewrite Eq. ring.
Qed.

Lemma sumDurations_numeric l :
  numeric l ->
  exists q,
    Charts.sumDurations l = JsObject.Num q
    /\ q == Qsum (map (fun x => seconds (Shared.duration x)) l).
Proof.
  intros Hn. destruct (fold_plus_numeric 0 Hn) as [q [Hq Eq]].
  exists q. split; [exact Hq|]. rewrite Eq. ring.
Qed.

Lemma Qsum_app l l' : Qsum (l ++ l') == Qsum l + Qsum l'.
Proof.
  induction l as [|x l IH]; simpl; [ring|]. rewrite IH. ring.
Qed.

Lemma Forall_skipn (A : Type) (P : A -> Prop) n l :
  Forall P l -> Forall P (skipn n l).
Proof.
  intros H. rewrite <- (firstn_skipn n l) in H.
  apply Forall_app in H. apply H.
Qed.

Lemma Forall_take (A : Type) (P : A -> Prop) n l :
  Forall P l -> Forall P (firstn n l).
Proof.
  intros H. rewrite <- (firstn_skipn n l) in H.
  apply Forall_app in H. apply H.
Qed.

(** X3: On the events of a chronologically sorted day without an application
    named like a property of [Object.prototype], the pie chart has at most
    six slices, and the total printed in its middle is a number, the sum of
    all durations, whether or not the slice ["Other"] was added. *)
Theorem pie_total_is_sum_of_durations events :
  chronological events = true ->
  ordinary events = true ->
  (List.length (Charts.pieTopApps events) <= 6)%nat
  /\ exists q,
       Charts.totalSeconds events = JsObject.Num q
       /\ q == Qsum (map (fun x => seconds (Shared.duration x))
                       (Shared.calculateAppDurations events)).
Proof.
  intros Hc Hord. destruct events as [|e rest].
  { split; [simpl; lia|]. exists 0. split; reflexivity. }
  unfold Charts.totalSeconds, Charts.pieTopApps, Charts.otherDuration.
  cbv beta iota zeta.
  set (events := e :: rest) in *.
  pose proof (output_numeric _ Hord) as Hnum.
  pose proof (durations_nonneg _ Hc Hord) as Hnn.
  set (all := Shared.calculateAppDurations events) in *.
  pose proof (Forall_take 5 Hnum) as Htop.
  destruct (sumDurations_numeric (Forall_skipn 5 Hnum)) as [qo [Ho Eo]].
  rewrite Ho. unfold Charts.positive. cbn [JsObject.toNumber].
  assert (Hrest : 0 <= qo).
  { rewrite Eo. apply Qsum_nonneg_map. now apply Forall_skipn. }
  assert (Hall : Qsum (map (fun x => seconds (Shared.duration x)) all)
                 == Qsum (map (fun x => seconds (Shared.duration x))
                            (firstn 5 all)) + qo).
  { rewrite <- (firstn_skipn 5 all) at 1.
    now rewrite map_app, Qsum_app, Eo. }
  pose proof (firstn_le_length 5 all) as Hlen.
  destruct (Qle_bool qo 0) eqn:E; cbn [negb].
  - split; [lia|]. apply Qle_bool_iff in E.
    destruct (sumDurations_numeric Htop) as [q [Hq Eq]].
    exists q. split; [exact Hq|]. rewrite Eq, Hall. lra.
  - split; [rewrite length_app; cbn [List.length]; lia|].
    assert (Hn : numeric
                   (firstn 5 all
                    ++ [ {| Shared.app := "Other";
                            Shared.duration := JsObject.Num qo |} ])).
    { apply Forall_app. split; [exact Htop|].
      constructor; [now exists qo|constructor]. }
    destruct (sumDurations_numeric Hn) as [q [Hq Eq]].
    exists q. split; [exact Hq|]. rewrite Eq, Hall, map_app, Qsum_app.
    cbn [map Qsum fold_right Shared.duration seconds]. ring.
Qed.

Lemma StronglySorted_app_inv (A : Type) (R : A -> A -> Prop) l1 l2 x y :
  StronglySorted R (l1 ++ l2) -> In x l1 -> In y l2 -> R x y.
Proof.
  induction l1 as [|z l1 IH]; simpl; intros Hs Hx Hy; [contradiction|].
  inversion Hs as [|? ? Hs' Hz]; subst. destruct Hx as [->|Hx].
  - rewrite Forall_forall in Hz. apply Hz, in_or_app. now right.
  - now apply IH.
Qed.

(** X4: The bar chart shows at most eight applications; when no application
    is named like a property of [Object.prototype], all durations are
    numbers and no application that the chart leaves out was used longer
    than one that it shows. *)
Theorem stats_shows_the_longest events :
  ordinary events = true ->
  (List.length (Charts.statsTopApps events) <= 8)%nat
  /\ numeric (Shared.calculateAppDurations events)
  /\ forall x y,
       In x (Charts.statsTopApps events) ->
       In y (Shared.calculateAppDurations events) ->
       ~ In y (Charts.statsTopApps events) ->
       seconds (Shared.duration y) <= seconds (Shared.duration x).
Proof.
  intros Hord. split; [|split; [now apply output_numeric|]].
  { destruct events; [simpl; lia|apply firstn_le_length]. }
  destruct events as [|e rest]; [contradiction|].
  unfold Charts.statsTopApps. set (events := e :: rest) in *.
  intros x y Hx Hy Hn.
  rewrite <- (firstn_skipn 8 (Shared.calculateAppDurations events)) in Hy.
  apply in_app_or in Hy. destruct Hy as [Hy|Hy]; [contradiction|].
  pose proof (calculateAppDurations_descending _ Hord) as Hs.
  unfold descending in Hs.
  rewrite <- (firstn_skipn 8 (Shared.calculateAppDurations events)) in Hs.
  exact (@StronglySorted_app_inv _ _ _ _ x y Hs Hx Hy).
Qed.

Lemma stats_shows_the_longest_witness :
  seconds
    (Shared.duration
       (nth 8 (Shared.calculateAppDurations events_nine) no_entry))
  <= seconds
       (Shared.duration
          (nth 0 (Shared.calculateAppDurations events_nine) no_entry)).
Proof.
  apply (proj2 (proj2 (@stats_shows_the_longest events_nine eq_refl))).
  - vm_compute. auto.
  - vm_compute. auto 20.
  - vm_compute. intuition discriminate.
Defined.

Lemma pie_total_witness :
  exists q,
    Charts.totalSeconds
      [ev 0 "Chrome"; ev 600000 "Finder"; ev 900000 "Chrome"]
    = JsObject.Num q
    /\ q == Qsum (map (fun x => seconds (Shared.duration x))
                    (Shared.calculateAppDurations
                       [ev 0 "Chrome"; ev 600000 "Finder";
                        ev 900000 "Chrome"])).
Proof.
  apply (proj2 (@pie_total_is_sum_of_durations
                  [ev 0 "Chrome"; ev 600000 "Finder"; ev 900000 "Chrome"]
                  eq_refl eq_refl)).
Defined.

(** ** [formatDuration] *)

Lemma Math_round_upper x : inject_Z (Format.Math_round x) <= x + (1 # 2).
Proof. apply Qfloor_le. Qed.

Lemma Math_round_lower x : x - (1 # 2) < inject_Z (Format.Math_round x).
Proof.
  pose proof (Qlt_floor (x + (1 # 2))) as H.
  rewrite inject_Z_plus in H. change (inject_Z 1) with 1 in H.
  unfold Format.Math_round. lra.
Qed.

Lemma Qle_bool_false x y : Qle_bool x y = false -> y < x.
Proof.
  intros H. apply Qnot_le_lt. intros Hle.
  apply Qle_bool_iff in Hle. congruence.
Qed.

Lemma truncate_nonneg x : 0 <= x -> Format.truncate x = Qfloor x.
Proof.
  intros H. unfold Format.truncate.
  apply Qle_bool_iff in H. now rewrite H.
Qed.

Lemma remainder_3600 s :
  3600 <= s ->
  Format.remainder s 3600
  == s - 3600 * inject_Z (Format.Math_floor (s / 3600))
  /\ 0 <= Format.remainder s 3600 < 3600.
Proof.
  intros Hs. unfold Format.remainder, Format.Math_floor.
  assert (H0 : 0 <= s / 3600).
  { apply Qle_shift_div_l; [reflexivity|]. lra. }
  rewrite (truncate_nonneg H0). split; [reflexivity|].
  pose proof (Qfloor_le (s / 3600)) as Hle.
  pose proof (Qlt_floor (s / 3600)) as Hlt.
  rewrite inject_Z_plus in Hlt. change (inject_Z 1) with 1 in Hlt.
  assert (E : s == 3600 * (s / 3600)) by (field).
  split; lra.
Qed.

(** X5: The text stands for a duration within half a minute of the argument
    (within half a second below one minute). *)
Theorem formatDuration_within_half_minute seconds :
  - (30) < Format.meaning (Format.durationParts seconds) - seconds <= 30
  /\ (seconds < 60 ->
      - (1 # 2) < Format.meaning (Format.durationParts seconds) - seconds
      <= 1 # 2).
Proof.
  unfold Format.durationParts.
  destruct (Qle_bool 60 seconds) eqn:E60; cbn [negb].
  - apply Qle_bool_iff in E60.
    split; [|intros H; exfalso; lra].
    destruct (Qle_bool 3600 seconds) eqn:E3600; cbn [negb].
    + apply Qle_bool_iff in E3600. cbv zeta. cbn [Format.meaning].
      destruct (remainder_3600 E3600) as [Er _].
      pose proof (Math_round_upper (Format.remainder seconds 3600 / 60)).
      pose proof (Math_round_lower (Format.remainder seconds 3600 / 60)).
      assert (E : Format.remainder seconds 3600
                  == 60 * (Format.remainder seconds 3600 / 60)) by field.
      split; lra.
    + cbn [Format.meaning].
      pose proof (Math_round_upper (seconds / 60)).
      pose proof (Math_round_lower (seconds / 60)).
      assert (E : seconds == 60 * (seconds / 60)) by field.
      split; lra.
  - cbn [Format.meaning].
    pose proof (Math_round_upper seconds).
    pose proof (Math_round_lower seconds).
    split; [|intros _]; split; lra.
Qed.

Lemma formatDuration_within_half_minute_witness :
  - (1 # 2)
  < Format.meaning (Format.durationParts (595 # 10)) - (595 # 10) <= 1 # 2.
Proof.
  apply (proj2 (formatDuration_within_half_minute (595 # 10))).
  reflexivity.
Defined.

Lemma Zlt_of_Qlt n c : inject_Z n < inject_Z c -> (n < c)%Z.
Proof. intros H. now rewrite Zlt_Qlt. Qed.

(** X6: Each branch can print 60 in its last place: the seconds lie in [0, 60],
    the minutes in [1, 60] below one hour and in [0, 60] above; 59.5 seconds
    read "60s", 3599 seconds "60m" and 7199 seconds "1h 60m". *)
Theorem formatDuration_parts_ranges seconds :
  (0 <= seconds -> seconds < 60 ->
   exists n, Format.durationParts seconds = Format.Seconds n
             /\ (0 <= n <= 60)%Z)
  /\ (60 <= seconds -> seconds < 3600 ->
      exists n, Format.durationParts seconds = Format.Minutes n
                /\ (1 <= n <= 60)%Z)
  /\ (3600 <= seconds ->
      exists hours mins,
        Format.durationParts seconds = Format.HoursMinutes hours mins
        /\ (1 <= hours)%Z /\ (0 <= mins <= 60)%Z
        /\ 3600 * inject_Z hours <= seconds < 3600 * inject_Z hours + 3600)
  /\ Format.formatDuration (595 # 10) = "60s"
  /\ Format.formatDuration 3599 = "60m"
  /\ Format.formatDuration 7199 = "1h 60m".
Proof.
  unfold Format.durationParts.
  split; [|split; [|split; [|repeat split]]].
  - intros H0 H60.
    assert (E : Qle_bool 60 seconds = false).
    { destruct (Qle_bool 60 seconds) eqn:E; [|reflexivity].
      apply Qle_bool_iff in E. lra. }
    rewrite E. cbn [negb]. eexists. split; [reflexivity|].
    pose proof (Math_round_upper seconds).
    pose proof (Math_round_lower seconds).
    split.
    + apply Z.lt_pred_le, Zlt_of_Qlt. change (inject_Z (Z.pred 0)) with (-1). lra.
    + apply Z.lt_succ_r, Zlt_of_Qlt. change (inject_Z (Z.succ 60)) with 61. lra.
  - intros H60 H3600.
    assert (E : Qle_bool 60 seconds = true) by now apply Qle_bool_iff.
    assert (E' : Qle_bool 3600 seconds = false).
    { destruct (Qle_bool 3600 seconds) eqn:E'; [|reflexivity].
      apply Qle_bool_iff in E'. lra. }
    rewrite E, E'. cbn [negb]. eexists. split; [reflexivity|].
    pose proof (Math_round_upper (seconds / 60)).
    pose proof (Math_round_lower (seconds / 60)).
    assert (Es : seconds == 60 * (seconds / 60)) by field.
    split.
    + apply Z.lt_pred_le, Zlt_of_Qlt. change (inject_Z (Z.pred 1)) with 0. lra.
    + apply Z.lt_succ_r, Zlt_of_Qlt. change (inject_Z (Z.succ 60)) with 61. lra.
  - intros H3600.
    assert (E : Qle_bool 60 seconds = true) by (apply Qle_bool_iff; lra).
    assert (E' : Qle_bool 3600 seconds = true) by now apply Qle_bool_iff.
    rewrite E, E'. cbn [negb]. cbv zeta. do 2 eexists.
    split; [reflexivity|].
    destruct (remainder_3600 H3600) as [Er [Hr0 Hr1]].
    pose proof (Math_round_upper (Format.remainder seconds 3600 / 60)).
    pose proof (Math_round_lower (Format.remainder seconds 3600 / 60)).
    assert (Es : Format.remainder seconds 3600
                 == 60 * (Format.remainder seconds 3600 / 60)) by field.
    pose proof (Qfloor_le (seconds / 3600)) as Hle.
    pose proof (Qlt_floor (seconds / 3600)) as Hlt.
    rewrite inject_Z_plus in Hlt. change (inject_Z 1) with 1 in Hlt.
    assert (Eh : seconds == 3600 * (seconds / 3600)) by field.
    unfold Format.Math_floor in *.
    repeat split.
    + apply Z.lt_pred_le, Zlt_of_Qlt. change (inject_Z (Z.pred 1)) with 0. lra.
    + apply Z.lt_pred_le, Zlt_of_Qlt. change (inject_Z (Z.pred 0)) with (-1). lra.
    + apply Z.lt_succ_r, Zlt_of_Qlt. change (inject_Z (Z.succ 60)) with 61. lra.
    + lra.
    + lra.
Qed.

Lemma formatDuration_parts_ranges_witness :
  exists hours mins,
    Format.durationParts 7199 = Format.HoursMinutes hours mins
    /\ (1 <= hours)%Z /\ (0 <= mins <= 60)%Z
    /\ 3600 * inject_Z hours <= 7199 < 3600 * inject_Z hours + 3600.
Proof.
  apply (proj1 (proj2 (proj2 (formatDuration_parts_ranges 7199)))).
  discriminate.
Defined.

(** ** The queries of tracker-db.ts *)

Section OrderAsc.
Variable A : Type.
Variable key : A -> Z.

Lemma order_asc_perm l : Permutation (TrackerDb.order_asc key l) l.
Proof. apply sort_perm. Qed.

Lemma order_asc_sorted l :
  StronglySorted (fun a b => (key a <= key b)%Z) (TrackerDb.order_asc key l).
Proof.
  unfold TrackerDb.order_asc.
  eapply StronglySorted_ind
    with (P := StronglySorted (fun a b => (key a <= key b)%Z));
    [constructor| |apply sort_sorted].
  - intros a l0 _ IH Ha. constructor; [exact IH|].
    eapply Forall_impl; [|exact Ha]. intros b Hb. now apply Z.leb_le.
  - intros x y H. apply Z.leb_gt in H. apply Z.leb_le. lia.
  - intros x y z H1 H2. apply Z.leb_le in H1, H2. apply Z.leb_le. lia.
Qed.

(** A list ordered by a key without repetition is strictly ordered. *)
Lemma sorted_strict l :
  StronglySorted (fun a b => (key b <= key a)%Z) l ->
  NoDup (map key l) ->
  StronglySorted (fun a b => (key b < key a)%Z) l.
Proof.
  induction 1 as [|x l Hs IH Hx]; simpl; intros Hnd; constructor.
  - apply IH. now inversion Hnd.
  - inversion Hnd as [|? ? Hout _]; subst.
    rewrite Forall_forall in *. intros y Hy.
    specialize (Hx y Hy).
    assert (key y <> key x).
    { intros E. apply Hout. rewrite <- E. now apply in_map. }
    lia.
Qed.

Lemma sorted_firstn (R : A -> A -> Prop) n l :
  StronglySorted R l -> StronglySorted R (firstn n l).
Proof.
  intros H. revert n. induction H as [|x l Hs IH Hx]; intros [|n]; simpl;
    try constructor.
  - apply IH.
  - rewrite Forall_forall in *. intros y Hy. apply Hx.
    now apply firstn_incl in Hy.
Qed.

(** In a strictly descending list the elements newer than [x] are those in
    front of it. *)
Lemma strict_newer_prefix pre x post :
  StronglySorted (fun a b => (key b < key a)%Z) (pre ++ x :: post) ->
  filter (fun y => (key x <? key y)%Z) (pre ++ x :: post) = pre.
Proof.
  induction pre as [|y pre IH]; simpl; intros Hs.
  - rewrite Z.ltb_irrefl. inversion Hs as [|? ? _ Hx]; subst.
    clear Hs. induction post as [|z post IHp]; simpl; [reflexivity|].
    inversion Hx; subst.
    replace (key x <? key z)%Z with false by (symmetry; apply Z.ltb_ge; lia).
    now apply IHp.
  - inversion Hs as [|? ? Hs' Hy]; subst.
    rewrite Forall_forall in Hy.
    assert (key x < key y)%Z by (apply Hy, in_elt).
    replace (key x <? key y)%Z with true by (symmetry; now apply Z.ltb_lt).
    f_equal. now apply IH.
Qed.
End OrderAsc.

Lemma getAvailableDates_In db d :
  In d (TrackerDb.getAvailableDates db)
  <-> (exists w, In w (TrackerDb.window_events db)
                 /\ TrackerDb.w_logical_date w = d)
      \/ (exists k, In k (TrackerDb.key_events db)
                    /\ TrackerDb.k_logical_date k = d).
Proof.
  unfold TrackerDb.getAvailableDates.
  rewrite order_desc_In, distinct_dates_In, in_app_iff, !in_map_iff.
  split; intros [[x [H1 H2]]|[x [H1 H2]]]; [left|right|left|right];
    exists x; auto.
Qed.

Lemma getAvailableDates_strict db :
  StronglySorted (fun a b => (b < a)%Z) (TrackerDb.getAvailableDates db).
Proof.
  unfold TrackerDb.getAvailableDates.
  apply (sorted_strict (fun d : Z => d)).
  - apply order_desc_sorted.
  - rewrite map_id.
    eapply Permutation_NoDup;
      [symmetry; apply order_desc_perm|apply NoDup_nodup].
Qed.

(** X7: [getAvailableDates] lists exactly the logical dates that have a window
    event or a key event, each once, the newest first. *)
Theorem getAvailableDates_exact db :
  (forall d,
      In d (TrackerDb.getAvailableDates db)
      <-> (exists w, In w (TrackerDb.window_events db)
                     /\ TrackerDb.w_logical_date w = d)
          \/ (exists k, In k (TrackerDb.key_events db)
                        /\ TrackerDb.k_logical_date k = d))
  /\ StronglySorted (fun a b => (b < a)%Z) (TrackerDb.getAvailableDates db).
Proof.
  split; [intros d; apply getAvailableDates_In|apply getAvailableDates_strict].
Qed.

Lemma overview_rows_strict db fromDate toDate :
  StronglySorted
    (fun a b => (TrackerDb.logical_date b < TrackerDb.logical_date a)%Z)
    (TrackerDb.overview_rows db fromDate toDate).
Proof.
  unfold TrackerDb.overview_rows. apply sorted_strict.
  - apply order_desc_sorted.
  - eapply Permutation_NoDup.
    + apply Permutation_map. symmetry. apply order_desc_perm.
    + rewrite summary_dates. apply NoDup_nodup.
Qed.

Lemma overview_rows_In db fromDate toDate s :
  In s (TrackerDb.overview_rows db fromDate toDate) <->
  exists w,
    In w (TrackerDb.window_events db)
    /\ TrackerDb.in_range fromDate toDate (TrackerDb.w_logical_date w) = true
    /\ s = TrackerDb.summary_of db
             (filter (fun w => TrackerDb.in_range fromDate toDate
                                 (TrackerDb.w_logical_date w))
                (TrackerDb.window_events db))
             (TrackerDb.w_logical_date w).
Proof.
  unfold TrackerDb.overview_rows.
  rewrite order_desc_In, in_map_iff. split.
  - intros [d [<- Hd]].
    apply (proj1 (distinct_dates_In _ _)), in_map_iff in Hd.
    destruct Hd as [w [<- Hw]]. apply filter_In in Hw.
    exists w. intuition.
  - intros [w [Hw [Hr ->]]]. exists (TrackerDb.w_logical_date w).
    split; [reflexivity|]. apply distinct_dates_In, in_map.
    apply filter_In. now split.
Qed.

(** X8: The rows of [getOverview] come with strictly descending dates, hence one
    row per date; there are at most [limit] of them; every date lies in the
    requested range and is one of [getAvailableDates]. *)
Theorem getOverview_shape db fromDate toDate limit :
  StronglySorted
    (fun a b => (TrackerDb.logical_date b < TrackerDb.logical_date a)%Z)
    (TrackerDb.getOverview db fromDate toDate limit)
  /\ (List.length (TrackerDb.getOverview db fromDate toDate limit)
      <= Z.to_nat limit)%nat
  /\ Forall
       (fun s =>
          TrackerDb.in_range fromDate toDate (TrackerDb.logical_date s) = true
          /\ In (TrackerDb.logical_date s) (TrackerDb.getAvailableDates db))
       (TrackerDb.getOverview db fromDate toDate limit).
Proof.
  unfold TrackerDb.getOverview. split; [|split].
  - apply sorted_firstn, overview_rows_strict.
  - apply firstn_le_length.
  - apply Forall_forall. intros s Hs. apply firstn_incl in Hs.
    apply overview_rows_In in Hs. destruct Hs as [w [Hw [Hr ->]]].
    cbn [TrackerDb.logical_date TrackerDb.summary_of].
    split; [exact Hr|]. apply getAvailableDates_In. left. now exists w.
Qed.

Lemma filter_date_in_range db fromDate toDate d :
  TrackerDb.in_range fromDate toDate d = true ->
  filter (fun w => (TrackerDb.w_logical_date w =? d)%Z)
    (filter (fun w => TrackerDb.in_range fromDate toDate
                        (TrackerDb.w_logical_date w))
       (TrackerDb.window_events db))
  = windowsOfDate db d.
Proof.
  intros Hr. unfold windowsOfDate.
  induction (TrackerDb.window_events db) as [|w l IH]; simpl; [reflexivity|].
  destruct (Z.eqb_spec (TrackerDb.w_logical_date w) d) as [E|E].
  - rewrite E, Hr. simpl. rewrite <- E at 1. rewrite Z.eqb_refl.
    now rewrite IH.
  - destruct (TrackerDb.in_range fromDate toDate (TrackerDb.w_logical_date w));
      simpl; [|exact IH].
    destruct (Z.eqb_spec (TrackerDb.w_logical_date w) d); [contradiction|].
    exact IH.
Qed.

Lemma COALESCE_sum l :
  TrackerDb.COALESCE (TrackerDb.sql_sum l) 0 = fold_right Z.add 0%Z l.
Proof. destruct l; reflexivity. Qed.

Lemma nodup_nonempty (l : list string) :
  l <> [] -> (1 <= List.length (nodup string_dec l))%nat.
Proof.
  destruct l as [|a l]; [congruence|]. intros _.
  assert (H : In a (nodup string_dec (a :: l))) by (apply nodup_In; now left).
  destruct (nodup string_dec (a :: l)); [contradiction|simpl; lia].
Qed.

Lemma nodup_length_le (l : list string) :
  (List.length (nodup string_dec l) <= List.length l)%nat.
Proof.
  induction l as [|a l IH]; simpl; [lia|].
  destruct (in_dec string_dec a l); simpl; lia.
Qed.

Lemma overview_row_facts db fromDate toDate limit :
  Forall
    (fun s =>
       TrackerDb.total_keys s = keysOfDate db (TrackerDb.logical_date s)
       /\ TrackerDb.unique_apps s
          = List.length
              (nodup string_dec
                 (map TrackerDb.w_app_name
                    (windowsOfDate db (TrackerDb.logical_date s))))
       /\ (1 <= TrackerDb.unique_apps s
           <= List.length (windowsOfDate db (TrackerDb.logical_date s)))%nat
       /\ (Forall (fun k => (0 <= TrackerDb.k_key_count k)%Z)
             (TrackerDb.key_events db) ->
           (0 <= TrackerDb.total_keys s)%Z))
    (TrackerDb.getOverview db fromDate toDate limit).
Proof.
  apply Forall_forall. intros s Hs.
  unfold TrackerDb.getOverview in Hs. apply firstn_incl in Hs.
  apply overview_rows_In in Hs. destruct Hs as [w [Hw [Hr ->]]].
  cbn [TrackerDb.logical_date TrackerDb.total_keys TrackerDb.unique_apps
       TrackerDb.summary_of].
  rewrite (filter_date_in_range db _ _ _ Hr), COALESCE_sum.
  fold (keysOfDate db (TrackerDb.w_logical_date w)).
  unfold TrackerDb.distinct_names.
  split; [reflexivity|]. split; [reflexivity|]. split; [split|].
  - apply nodup_nonempty. intros E. apply map_eq_nil in E.
    assert (Hin : In w (windowsOfDate db (TrackerDb.w_logical_date w))).
    { apply filter_In. split; [exact Hw|apply Z.eqb_refl]. }
    rewrite E in Hin. contradiction.
  - rewrite <- (length_map TrackerDb.w_app_name). apply nodup_length_le.
  - intros Hk. unfold keysOfDate.
    induction (TrackerDb.key_events db) as [|k l IH]; simpl; [lia|].
    inversion Hk; subst.
    destruct (TrackerDb.k_logical_date k =? TrackerDb.w_logical_date w)%Z;
      simpl; [|auto].
    specialize (IH H2). lia.
Qed.

(** X9: In every row of [getOverview], [total_keys] is the sum of the key counts
    of the row's date, and [unique_apps] counts the distinct application
    names among all window events of that date: at least one, and no more
    than there are events.  Key counts that are not negative give totals
    that are not negative. *)
Theorem getOverview_row_values db fromDate toDate limit :
  Forall
    (fun s =>
       TrackerDb.total_keys s = keysOfDate db (TrackerDb.logical_date s)
       /\ TrackerDb.unique_apps s
          = List.length
              (nodup string_dec
                 (map TrackerDb.w_app_name
                    (windowsOfDate db (TrackerDb.logical_date s))))
       /\ (1 <= TrackerDb.unique_apps s
           <= List.length (windowsOfDate db (TrackerDb.logical_date s)))%nat
       /\ (Forall (fun k => (0 <= TrackerDb.k_key_count k)%Z)
             (TrackerDb.key_events db) ->
           (0 <= TrackerDb.total_keys s)%Z))
    (TrackerDb.getOverview db fromDate toDate limit).
Proof. apply overview_row_facts. Qed.

Lemma getOverview_row_values_witness :
  Forall (fun s => (0 <= TrackerDb.total_keys s)%Z)
    (TrackerDb.getOverview db_sample None None 30).
Proof.
  eapply Forall_impl;
    [|apply (getOverview_row_values db_sample None None 30)].
  intros s [_ [_ [_ H]]]. apply H. repeat constructor; discriminate.
Defined.

Lemma overview_dates_of_rows db fromDate toDate :
  map TrackerDb.logical_date (TrackerDb.overview_rows db fromDate toDate)
  = TrackerDb.order_desc (fun d => d)
      (TrackerDb.distinct_dates
         (map TrackerDb.w_logical_date
            (filter (fun w => TrackerDb.in_range fromDate toDate
                                (TrackerDb.w_logical_date w))
               (TrackerDb.window_events db)))).
Proof.
  unfold TrackerDb.overview_rows.
  set (rows := filter _ (TrackerDb.window_events db)).
  rewrite <- (summary_dates db rows (TrackerDb.distinct_dates _)) at 2.
  generalize (map (TrackerDb.summary_of db rows)
                (TrackerDb.distinct_dates (map TrackerDb.w_logical_date rows))).
  intros l. unfold TrackerDb.order_desc, StableSort.sort.
  induction l as [|x l IH]; simpl; [reflexivity|].
  rewrite <- IH. clear IH.
  generalize (fold_right
                (StableSort.insert
                   (fun a b => (TrackerDb.logical_date b
                                <=? TrackerDb.logical_date a)%Z)) [] l).
  intros l'. induction l' as [|y l' IH]; simpl; [reflexivity|].
  destruct (TrackerDb.logical_date y <=? TrackerDb.logical_date x)%Z; simpl;
    [reflexivity|now rewrite IH].
Qed.

Lemma overview_dates_iff db fromDate toDate limit d :
  In d (map TrackerDb.logical_date
          (TrackerDb.getOverview db fromDate toDate limit))
  <-> (exists w, In w (TrackerDb.window_events db)
                 /\ TrackerDb.w_logical_date w = d)
      /\ TrackerDb.in_range fromDate toDate d = true
      /\ (List.length (newer_dates db fromDate toDate d)
          < Z.to_nat limit)%nat.
Proof.
  unfold TrackerDb.getOverview. rewrite <- firstn_map.
  rewrite overview_dates_of_rows. unfold newer_dates.
  set (dates := TrackerDb.distinct_dates _).
  assert (Hd : In d dates
               <-> (exists w, In w (TrackerDb.window_events db)
                              /\ TrackerDb.w_logical_date w = d)
                   /\ TrackerDb.in_range fromDate toDate d = true).
  { unfold dates. rewrite distinct_dates_In, in_map_iff. split.
    - intros [w [<- Hw]]. apply filter_In in Hw. split; [|apply Hw].
      exists w. intuition.
    - intros [[w [Hw <-]] Hr]. exists w. split; [reflexivity|].
      apply filter_In. now split. }
  assert (Hnd : NoDup dates) by apply NoDup_nodup.
  split.
  - intros Hin.
    pose proof (firstn_incl _ _ _ Hin) as Hall.
    apply order_desc_In in Hall. apply Hd in Hall.
    destruct Hall as [Hw Hr]. split; [exact Hw|split; [exact Hr|]].
    assert (Hs : StronglySorted (fun a b => (b < a)%Z)
                   (TrackerDb.order_desc (fun d => d) dates)).
    { apply (sorted_strict (fun d : Z => d)); [apply order_desc_sorted|].
      rewrite map_id. eapply Permutation_NoDup;
        [symmetry; apply order_desc_perm|exact Hnd]. }
    rewrite <- (filter_length_perm (fun d' => (d <? d')%Z)
                  (order_desc_perm (fun d => d) dates)).
    destruct (in_split _ _ Hin) as [pre [post E]].
    rewrite <- (firstn_skipn (Z.to_nat limit)
                  (TrackerDb.order_desc (fun d => d) dates)) in Hs |- *.
    rewrite E, <- app_assoc in Hs |- *. cbn [app] in Hs |- *.
    rewrite (strict_newer_prefix (fun d : Z => d) _ _ _ Hs).
    pose proof (firstn_le_length (Z.to_nat limit)
                  (TrackerDb.order_desc (fun d => d) dates)) as Hlen.
    rewrite E, length_app in Hlen. simpl in Hlen. lia.
  - intros [Hw [Hr Hn]].
    apply (order_desc_firstn (fun d : Z => d)).
    + now apply Hd.
    + now rewrite map_id.
    + exact Hn.
Qed.

(** X10: [getOverview] returns the [limit] newest dates of the range that have a
    window event, and no other: a date has a row exactly when it lies in
    the range, has a window event, and fewer than [limit] dates of the
    range with window events are newer. *)
Theorem getOverview_dates_exact db fromDate toDate limit d :
  In d (map TrackerDb.logical_date
          (TrackerDb.getOverview db fromDate toDate limit))
  <-> (exists w, In w (TrackerDb.window_events db)
                 /\ TrackerDb.w_logical_date w = d)
      /\ TrackerDb.in_range fromDate toDate d = true
      /\ (List.length (newer_dates db fromDate toDate d)
          < Z.to_nat limit)%nat.
Proof. apply overview_dates_iff. Qed.

Lemma getOverview_dates_exact_witness :
  In 11%Z (map TrackerDb.logical_date
             (TrackerDb.getOverview db_sample None None 2)).
Proof.
  apply (proj2 (getOverview_dates_exact db_sample None None 2 11)).
  split; [|split].
  - exists (wr 3000 "Chrome" 11). split; [simpl; auto|reflexivity].
  - reflexivity.
  - vm_compute. lia.
Defined.

(** X11: The window events that [getDayData] returns are the rows recorded
    for the date, each once, in non-decreasing order of their stored
    timestamps. *)
Theorem getDayData_events_chronological s logicalDate :
  exists rows,
    TrackerStore.window_events (TrackerStore.getDayData s logicalDate)
    = map TrackerDb.toWindowEvent rows
    /\ Permutation rows (windowsOfDate (TrackerStore.events s) logicalDate)
    /\ StronglySorted
         (fun a b => (TrackerDb.w_timestamp a <= TrackerDb.w_timestamp b)%Z)
         rows.
Proof.
  exists (TrackerDb.order_asc TrackerDb.w_timestamp
            (windowsOfDate (TrackerStore.events s) logicalDate)).
  split; [reflexivity|]. split.
  - apply order_asc_perm.
  - apply (order_asc_sorted TrackerDb.w_timestamp).
Qed.

Lemma fold_left_Zadd (A : Type) (f : A -> Z) l acc :
  fold_left (fun sum e => (sum + f e)%Z) l acc
  = (acc + fold_right Z.add 0%Z (map f l))%Z.
Proof.
  revert acc. induction l as [|x l IH]; intros acc; simpl; [lia|].
  rewrite IH. lia.
Qed.

Lemma Zsum_perm l l' :
  Permutation l l' -> fold_right Z.add 0%Z l = fold_right Z.add 0%Z l'.
Proof.
  induction 1 as [|x l l' _ IH|x y l|l l' l'' _ IH1 _ IH2]; simpl; lia.
Qed.

Lemma nodup_length_perm (l l' : list string) :
  Permutation l l' ->
  List.length (nodup string_dec l) = List.length (nodup string_dec l').
Proof.
  intros H. apply Permutation_length, NoDup_Permutation;
    try apply NoDup_nodup.
  intros a. rewrite !nodup_In. split; apply Permutation_in;
    [exact H|now symmetry].
Qed.

(** X12: The two pages agree: the keystroke total and the number of applications
    that the day view computes from [getDayData] are the [total_keys] and
    [unique_apps] of the date's row in [getOverview]. *)
Theorem dayView_stats_match_overview s fromDate toDate limit :
  Forall
    (fun row =>
       DayView.totalKeystrokes
         (Some (TrackerStore.getDayData s (TrackerDb.logical_date row)))
       = TrackerDb.total_keys row
       /\ DayView.uniqueApps
            (Some (TrackerStore.getDayData s (TrackerDb.logical_date row)))
          = TrackerDb.unique_apps row)
    (TrackerDb.getOverview (TrackerStore.events s) fromDate toDate limit).
Proof.
  pose proof (overview_row_facts (TrackerStore.events s)
                fromDate toDate limit) as H.
  eapply Forall_impl; [|exact H]. clear H.
  intros row [Hk [Ha _]]. rewrite Hk, Ha. clear Hk Ha.
  cbn [DayView.totalKeystrokes DayView.uniqueApps TrackerStore.getDayData
       TrackerStore.key_events TrackerStore.window_events].
  split.
  - rewrite fold_left_Zadd. unfold TrackerStore.dayKeyEvents, keysOfDate.
    rewrite map_map. cbn [TrackerStore.key_count]. cbn [Z.add].
    apply Zsum_perm, Permutation_map, order_asc_perm.
  - unfold TrackerDb.dayWindowEvents. rewrite map_map.
    cbn [Shared.app_name TrackerDb.toWindowEvent].
    apply nodup_length_perm, Permutation_map, order_asc_perm.
Qed.

(** ** [getAppUsageForDate] *)

Lemma sort_by_descending (A : Type) (f : A -> Q) l :
  StronglySorted (fun x y => f y <= f x)
    (StableSort.sort_by (fun a b => f b - f a) l).
Proof.
  unfold StableSort.sort_by.
  eapply StronglySorted_ind
    with (P := StronglySorted (fun x y : A => f y <= f x));
    [constructor| |apply sort_sorted].
  - intros a l0 _ IH Ha. constructor; [exact IH|].
    eapply Forall_impl; [|exact Ha]. intros b Hb. cbv beta in Hb.
    apply Qle_bool_iff in Hb. lra.
  - intros x y H. apply Qle_bool_false in H. apply Qle_bool_iff. lra.
  - intros x y z H1 H2. apply Qle_bool_iff in H1, H2.
    apply Qle_bool_iff. lra.
Qed.

Lemma lead_names rows :
  map (fun e : string * Z * option Z => fst (fst e)) (TrackerDb.lead rows)
  = map TrackerDb.w_app_name rows.
Proof.
  induction rows as [|r rest IH]; simpl; [reflexivity|]. now rewrite IH.
Qed.

Lemma lead_length rows : List.length (TrackerDb.lead rows) = List.length rows.
Proof.
  induction rows as [|r rest IH]; simpl; [reflexivity|]. now rewrite IH.
Qed.

Section Partition.
Variable A : Type.
Variable k : A -> string.

Lemma single_count (ks : list string) b :
  NoDup ks -> In b ks ->
  fold_right Nat.add 0%nat
    (map (fun a => if String.eqb b a then 1%nat else 0%nat) ks) = 1%nat.
Proof.
  induction 1 as [|a ks Hout Hnd IH]; simpl; [contradiction|].
  intros [->|Hin].
  - rewrite String.eqb_refl.
    assert (E : fold_right Nat.add 0%nat
                  (map (fun a => if String.eqb b a then 1%nat else 0%nat) ks)
                = 0%nat).
    { clear IH Hnd. induction ks as [|c ks IH]; simpl; [reflexivity|].
      destruct (String.eqb_spec b c) as [->|_].
      - exfalso. apply Hout. now left.
      - apply IH. intros H. apply Hout. now right. }
    now rewrite E.
  - destruct (String.eqb_spec b a) as [->|_]; [contradiction|].
    now apply IH.
Qed.

Lemma single_value (ks : list string) b (v : Q) :
  NoDup ks -> In b ks ->
  Qsum (map (fun a => if String.eqb b a then v else 0) ks) == v.
Proof.
  induction 1 as [|a ks Hout Hnd IH]; simpl; [contradiction|].
  intros [->|Hin].
  - rewrite String.eqb_refl.
    assert (E : Qsum (map (fun a => if String.eqb b a then v else 0) ks) == 0).
    { clear IH Hnd. induction ks as [|c ks IH]; simpl; [reflexivity|].
      destruct (String.eqb_spec b c) as [->|_].
      - exfalso. apply Hout. now left.
      - rewrite IH; [ring|]. intros H. apply Hout. now right. }
    rewrite E. ring.
  - destruct (String.eqb_spec b a) as [->|_]; [contradiction|].
    rewrite IH by exact Hin. ring.
Qed.

(** Grouping by a key loses no element. *)
Lemma partition_count (ks : list string) l :
  NoDup ks -> (forall x, In x l -> In (k x) ks) ->
  fold_right Nat.add 0%nat
    (map (fun a => List.length (filter (fun x => String.eqb (k x) a) l)) ks)
  = List.length l.
Proof.
  intros Hnd. induction l as [|x l IH]; intros Hin.
  - simpl. clear. induction ks as [|a ks IHk]; simpl; [reflexivity|].
    exact IHk.
  - assert (E : forall ks' : list string,
               fold_right Nat.add 0%nat
                 (map (fun a => List.length
                                  (filter (fun y => String.eqb (k y) a)
                                     (x :: l))) ks')
               = (fold_right Nat.add 0%nat
                    (map (fun a => if String.eqb (k x) a then 1%nat
                                   else 0%nat) ks')
                  + fold_right Nat.add 0%nat
                      (map (fun a => List.length
                                       (filter (fun y => String.eqb (k y) a)
                                          l)) ks'))%nat).
    { induction ks' as [|a ks' IHk]; [reflexivity|].
      cbn [map fold_right]. rewrite IHk. cbn [filter].
      destruct (String.eqb (k x) a); cbn [List.length]; lia. }
    rewrite E, single_count, IH; simpl; auto;
      try (intros y Hy; apply Hin; now right); apply Hin; now left.
Qed.

Lemma partition_sum (f : A -> Q) (ks : list string) l :
  NoDup ks -> (forall x, In x l -> In (k x) ks) ->
  Qsum (map (fun a => Qsum (map f (filter (fun x => String.eqb (k x) a) l)))
          ks)
  == Qsum (map f l).
Proof.
  intros Hnd. induction l as [|x l IH]; intros Hin.
  - simpl. clear. induction ks as [|a ks IHk]; simpl; [reflexivity|].
    rewrite IHk. ring.
  - assert (E : forall ks' : list string,
               Qsum (map (fun a => Qsum (map f
                                           (filter
                                              (fun y => String.eqb (k y) a)
                                              (x :: l)))) ks')
               == Qsum (map (fun a => if String.eqb (k x) a then f x else 0)
                          ks')
                  + Qsum (map (fun a => Qsum (map f
                                                (filter
                                                   (fun y =>
                                                      String.eqb (k y) a)
                                                   l))) ks')).
    { induction ks' as [|a ks' IHk]; [simpl; ring|].
      cbn [map]. change (Qsum (?h :: ?t)) with (h + Qsum t).
      rewrite IHk. cbn [filter].
      destruct (String.eqb (k x) a); cbn [map];
        change (Qsum (?h :: ?t)) with (h + Qsum t); ring. }
    rewrite E, single_value, IH; simpl; auto; try reflexivity;
      try (intros y Hy; apply Hin; now right); apply Hin; now left.
Qed.
End Partition.

Lemma usage_apps db logicalDate :
  map TrackerDb.app_name
    (map (TrackerDb.usage_of (TrackerDb.event_durations db logicalDate))
       (TrackerDb.distinct_names
          (map (fun e : string * Z * option Z => fst (fst e))
             (TrackerDb.event_durations db logicalDate))))
  = nodup string_dec
      (map TrackerDb.w_app_name
         (TrackerDb.order_asc TrackerDb.w_timestamp
            (windowsOfDate db logicalDate))).
Proof.
  rewrite map_map. cbn [TrackerDb.app_name TrackerDb.usage_of].
  rewrite map_id. unfold TrackerDb.event_durations.
  now rewrite lead_names.
Qed.

(** X13: [getAppUsageForDate] returns one entry for each application that has a
    window event on the date, sorted by descending duration, and the event
    counts of the entries add up to the number of window events of the
    date. *)
Theorem getAppUsageForDate_entries db logicalDate :
  (forall a,
      In a (map TrackerDb.app_name
              (TrackerDb.getAppUsageForDate db logicalDate))
      <-> exists w, In w (windowsOfDate db logicalDate)
                    /\ TrackerDb.w_app_name w = a)
  /\ NoDup (map TrackerDb.app_name
              (TrackerDb.getAppUsageForDate db logicalDate))
  /\ fold_right Nat.add 0%nat
       (map TrackerDb.event_count
          (TrackerDb.getAppUsageForDate db logicalDate))
     = List.length (windowsOfDate db logicalDate)
  /\ StronglySorted
       (fun x y => TrackerDb.duration_seconds y <= TrackerDb.duration_seconds x)
       (TrackerDb.getAppUsageForDate db logicalDate).
Proof.
  assert (Hp : Permutation
                 (TrackerDb.getAppUsageForDate db logicalDate)
                 (map (TrackerDb.usage_of
                         (TrackerDb.event_durations db logicalDate))
                    (TrackerDb.distinct_names
                       (map (fun e : string * Z * option Z => fst (fst e))
                          (TrackerDb.event_durations db logicalDate))))).
  { unfold TrackerDb.getAppUsageForDate, StableSort.sort_by.
    cbv zeta. apply sort_perm. }
  split; [|split; [|split]].
  - intros a. split.
    + intros Ha.
      apply (Permutation_in _ (Permutation_map TrackerDb.app_name Hp)) in Ha.
      rewrite usage_apps, nodup_In, in_map_iff in Ha.
      destruct Ha as [w [<- Hw]].
      apply (Permutation_in _ (order_asc_perm _ _)) in Hw. now exists w.
    + intros [w [Hw <-]].
      apply (Permutation_in _
               (Permutation_sym (Permutation_map TrackerDb.app_name Hp))).
      rewrite usage_apps, nodup_In. apply in_map.
      apply (Permutation_in _ (Permutation_sym (order_asc_perm _ _))), Hw.
  - apply (Permutation_NoDup
             (Permutation_sym (Permutation_map TrackerDb.app_name Hp))).
    rewrite usage_apps. apply NoDup_nodup.
  - assert (E : forall l l' : list nat,
               Permutation l l' ->
               fold_right Nat.add 0%nat l = fold_right Nat.add 0%nat l').
    { induction 1; simpl; lia. }
    rewrite (E _ _ (Permutation_map TrackerDb.event_count Hp)).
    rewrite map_map. cbn [TrackerDb.event_count TrackerDb.usage_of].
    rewrite (partition_count
               (fun e : string * Z * option Z => fst (fst e))).
    + unfold TrackerDb.event_durations. rewrite lead_length.
      apply Permutation_length, order_asc_perm.
    + apply NoDup_nodup.
    + intros x Hx. apply nodup_In.
      exact (in_map (fun e : string * Z * option Z => fst (fst e)) _ x Hx).
  - unfold TrackerDb.getAppUsageForDate. cbv zeta.
    apply sort_by_descending.
Qed.

Lemma lead_telescopes r rest d :
  Qsum (map TrackerDb.case_duration (TrackerDb.lead (r :: rest)))
  == inject_Z (TrackerDb.w_timestamp (last (r :: rest) d)
               - TrackerDb.w_timestamp r) / 1000.
Proof.
  revert r. induction rest as [|r' rest IH]; intros r.
  - cbn [TrackerDb.lead map last]. unfold TrackerDb.case_duration.
    cbn [snd Qsum fold_right]. rewrite Z.sub_diag. reflexivity.
  - change (TrackerDb.lead (r :: r' :: rest))
      with ((TrackerDb.w_app_name r, TrackerDb.w_timestamp r,
             Some (TrackerDb.w_timestamp r')) :: TrackerDb.lead (r' :: rest)).
    change (last (r :: r' :: rest) d) with (last (r' :: rest) d).
    cbn [map]. change (Qsum (?h :: ?t)) with (h + Qsum t).
    rewrite IH. unfold TrackerDb.case_duration. cbn [snd fst].
    replace (TrackerDb.w_timestamp (last (r' :: rest) d)
             - TrackerDb.w_timestamp r)%Z
      with ((TrackerDb.w_timestamp r' - TrackerDb.w_timestamp r)
            + (TrackerDb.w_timestamp (last (r' :: rest) d)
               - TrackerDb.w_timestamp r'))%Z by lia.
    rewrite inject_Z_plus. field.
Qed.

Lemma usage_total db logicalDate :
  Qsum (map TrackerDb.duration_seconds
          (TrackerDb.getAppUsageForDate db logicalDate))
  == Qsum (map TrackerDb.case_duration
             (TrackerDb.event_durations db logicalDate)).
Proof.
  unfold TrackerDb.getAppUsageForDate, StableSort.sort_by. cbv zeta.
  rewrite (Qsum_perm (Permutation_map TrackerDb.duration_seconds
                        (sort_perm _ _))).
  rewrite map_map. cbn [TrackerDb.duration_seconds TrackerDb.usage_of].
  apply (partition_sum (fun e : string * Z * option Z => fst (fst e))
           TrackerDb.case_duration).
  - apply NoDup_nodup.
  - intros x Hx. apply nodup_In.
    exact (in_map (fun e : string * Z * option Z => fst (fst e)) _ x Hx).
Qed.

Lemma last_map (A B : Type) (f : A -> B) l d :
  last (map f l) (f d) = f (last l d).
Proof.
  induction l as [|x l IH]; [reflexivity|].
  destruct l as [|y l]; [reflexivity|]. exact IH.
Qed.

(** X14: The durations that [getAppUsageForDate] reports add up to the time from
    the first to the last window event of the date, however long the idle
    periods in between; a date without window events has no entry. *)
Theorem getAppUsageForDate_total_is_span db logicalDate :
  match TrackerDb.dayWindowEvents db logicalDate with
  | [] => TrackerDb.getAppUsageForDate db logicalDate = []
  | first :: rest =>
      Qsum (map TrackerDb.duration_seconds
              (TrackerDb.getAppUsageForDate db logicalDate))
      == inject_Z (Shared.timestamp (last rest first)
                   - Shared.timestamp first) / 1000
  end.
Proof.
  pose proof (usage_total db logicalDate) as Ht.
  unfold TrackerDb.dayWindowEvents.
  unfold TrackerDb.getAppUsageForDate, TrackerDb.event_durations in *.
  cbv zeta in *.
  destruct (TrackerDb.order_asc TrackerDb.w_timestamp
              (filter (fun w => (TrackerDb.w_logical_date w =? logicalDate)%Z)
                 (TrackerDb.window_events db))) as [|r rest].
  - reflexivity.
  - cbn [map]. rewrite Ht, (lead_telescopes r rest r).
    assert (E : last (r :: rest) r = last rest r) by (now destruct rest).
    rewrite E, (last_map TrackerDb.toWindowEvent rest r). reflexivity.
Qed.

(** ** Notes and the daily blog *)

Lemma upsertNote_fresh ts c d rows :
  ~ In ts (map TrackerStore.n_timestamp rows) ->
  TrackerStore.upsertNote ts c d rows
  = rows ++ [ {| TrackerStore.n_timestamp := ts;
                 TrackerStore.n_content := c;
                 TrackerStore.n_logical_date := d |} ].
Proof.
  induction rows as [|r rows IH]; simpl; intros H; [reflexivity|].
  destruct (Z.eqb_spec (TrackerStore.n_timestamp r) ts) as [E|E].
  - exfalso. apply H. now left.
  - rewrite IH; [reflexivity|]. intros Hin. apply H. now right.
Qed.

Lemma upsertNote_timestamps ts c d rows :
  In ts (map TrackerStore.n_timestamp rows) ->
  map TrackerStore.n_timestamp (TrackerStore.upsertNote ts c d rows)
  = map TrackerStore.n_timestamp rows.
Proof.
  induction rows as [|r rows IH]; simpl; [contradiction|].
  destruct (Z.eqb_spec (TrackerStore.n_timestamp r) ts) as [E|E].
  - reflexivity.
  - intros [H|H]; [contradiction|]. simpl. now rewrite IH.
Qed.

Lemma upsertNote_existing ts c d rows r :
  NoDup (map TrackerStore.n_timestamp rows) ->
  In r rows -> TrackerStore.n_timestamp r = ts ->
  forall r',
    In r' (TrackerStore.upsertNote ts c d rows) <->
    (In r' rows /\ TrackerStore.n_timestamp r' <> ts)
    \/ r' = {| TrackerStore.n_timestamp := ts;
               TrackerStore.n_content := c;
               TrackerStore.n_logical_date := TrackerStore.n_logical_date r |}.
Proof.
  intros Hnd Hr Hts r'. subst ts.
  induction rows as [|r0 rows IH]; [contradiction|].
  simpl in Hnd. inversion Hnd as [|? ? Hout Hnd']; subst. simpl.
  destruct (Z.eqb_spec (TrackerStore.n_timestamp r0)
              (TrackerStore.n_timestamp r)) as [E|E].
  - assert (r0 = r).
    { destruct Hr as [Hr|Hr]; [exact Hr|]. exfalso. apply Hout.
      rewrite E. now apply in_map. }
    subst r0. simpl. split.
    + intros [H|H].
      * right. now symmetry.
      * left. split; [now right|].
        intros E'. apply Hout. rewrite <- E'. now apply in_map.
    + intros [[H Hne]|H].
      * destruct H as [H|H]; [congruence|now right].
      * left. now symmetry.
  - destruct Hr as [Hr|Hr]; [congruence|]. simpl.
    rewrite (IH Hnd' Hr). split.
    + intros [H|[[H Hne]|H]].
      * left. subst r'. split; [now left|exact E].
      * left. split; [now right|exact Hne].
      * now right.
    + intros [[H Hne]|H].
      * destruct H as [H|H]; [now left|]. right. left. now split.
      * right. now right.
Qed.

(** X16: A note added with a timestamp not yet in the table is listed by
    [getDayData] for its date; one row is added and the notes of every other
    date stay as they were. *)
Theorem addNote_fresh_timestamp s ts c d :
  ~ In ts (map TrackerStore.n_timestamp (TrackerStore.notes s)) ->
  In {| TrackerStore.note_timestamp := ts; TrackerStore.content := c |}
    (TrackerStore.day_notes
       (TrackerStore.getDayData (TrackerStore.addNote ts c d s) d))
  /\ List.length (TrackerStore.notes (TrackerStore.addNote ts c d s))
     = S (List.length (TrackerStore.notes s))
  /\ forall d', d' <> d ->
       TrackerStore.day_notes
         (TrackerStore.getDayData (TrackerStore.addNote ts c d s) d')
       = TrackerStore.day_notes (TrackerStore.getDayData s d').
Proof.
  intros Hfresh.
  cbn [TrackerStore.getDayData TrackerStore.day_notes TrackerStore.addNote
       TrackerStore.notes].
  unfold TrackerStore.dayNotes. cbn [TrackerStore.notes TrackerStore.addNote].
  rewrite (@upsertNote_fresh ts c d _ Hfresh). split; [|split].
  - apply (in_map
             (fun r => {| TrackerStore.note_timestamp :=
                            TrackerStore.n_timestamp r;
                          TrackerStore.content := TrackerStore.n_content r |})
             _ {| TrackerStore.n_timestamp := ts;
                  TrackerStore.n_content := c;
                  TrackerStore.n_logical_date := d |}).
    apply (Permutation_in _ (Permutation_sym (order_asc_perm _ _))).
    apply filter_In. split; [|apply Z.eqb_refl].
    apply in_or_app. right. now left.
  - rewrite length_app. simpl. lia.
  - intros d' Hd. rewrite filter_app. simpl.
    destruct (Z.eqb_spec d d'); [congruence|]. now rewrite app_nil_r.
Qed.

Lemma addNote_fresh_timestamp_witness :
  In {| TrackerStore.note_timestamp := 1700%Z;
        TrackerStore.content := "lunch" |}
    (TrackerStore.day_notes
       (TrackerStore.getDayData
          (TrackerStore.addNote 1700 "lunch" 10 store_sample) 10)).
Proof.
  apply (proj1 (@addNote_fresh_timestamp store_sample 1700 "lunch" 10
                  ltac:(simpl; intuition discriminate))).
Defined.

(** X17: A note added with a timestamp that the table already has replaces the
    content of the old note and nothing else: the note stays under its old
    date, where [getDayData] shows the new content, and it is not listed
    under the date given in the call when that date is another one. *)
Theorem addNote_existing_timestamp s ts c d r :
  NoDup (map TrackerStore.n_timestamp (TrackerStore.notes s)) ->
  In r (TrackerStore.notes s) ->
  TrackerStore.n_timestamp r = ts ->
  List.length (TrackerStore.notes (TrackerStore.addNote ts c d s))
  = List.length (TrackerStore.notes s)
  /\ In {| TrackerStore.note_timestamp := ts; TrackerStore.content := c |}
       (TrackerStore.day_notes
          (TrackerStore.getDayData (TrackerStore.addNote ts c d s)
             (TrackerStore.n_logical_date r)))
  /\ (d <> TrackerStore.n_logical_date r ->
      ~ In ts
          (map TrackerStore.note_timestamp
             (TrackerStore.day_notes
                (TrackerStore.getDayData (TrackerStore.addNote ts c d s) d)))).
Proof.
  intros Hnd Hr Hts.
  pose proof (@upsertNote_existing ts c d _ r Hnd Hr Hts) as Hin.
  assert (Hmem : In ts (map TrackerStore.n_timestamp (TrackerStore.notes s))).
  { rewrite <- Hts. now apply in_map. }
  cbn [TrackerStore.getDayData TrackerStore.day_notes TrackerStore.addNote
       TrackerStore.notes].
  unfold TrackerStore.dayNotes. cbn [TrackerStore.notes TrackerStore.addNote].
  split; [|split].
  - rewrite <- (length_map TrackerStore.n_timestamp),
      (@upsertNote_timestamps ts c d _ Hmem).
    apply length_map.
  - apply (in_map
             (fun r => {| TrackerStore.note_timestamp :=
                            TrackerStore.n_timestamp r;
                          TrackerStore.content := TrackerStore.n_content r |})
             _ {| TrackerStore.n_timestamp := ts;
                  TrackerStore.n_content := c;
                  TrackerStore.n_logical_date :=
                    TrackerStore.n_logical_date r |}).
    apply (Permutation_in _ (Permutation_sym (order_asc_perm _ _))).
    apply filter_In. split; [|apply Z.eqb_refl].
    apply Hin. now right.
  - intros Hd Hts'. rewrite map_map in Hts'.
    cbn [TrackerStore.note_timestamp] in Hts'.
    apply in_map_iff in Hts'. destruct Hts' as [r' [Er' Hr']].
    apply (Permutation_in _ (order_asc_perm _ _)) in Hr'.
    apply filter_In in Hr'. destruct Hr' as [Hr' Hdate].
    apply Z.eqb_eq in Hdate.
    apply Hin in Hr'. destruct Hr' as [[_ Hne]|Hr']; [congruence|].
    subst r'. simpl in Hdate. congruence.
Qed.

Lemma addNote_existing_timestamp_witness :
  ~ In 1200%Z
      (map TrackerStore.note_timestamp
         (TrackerStore.day_notes
            (TrackerStore.getDayData
               (TrackerStore.addNote 1200 "moved" 11 store_sample) 11))).
Proof.
  apply (proj2 (proj2
    (@addNote_existing_timestamp store_sample 1200 "moved" 11
       {| TrackerStore.n_timestamp := 1200%Z;
          TrackerStore.n_content := "standup";
          TrackerStore.n_logical_date := 10%Z |}
       ltac:(repeat constructor; simpl; intuition)
       ltac:(simpl; auto) eq_refl))).
  discriminate.
Defined.

(** X18: [addNote] keeps the timestamps of the notes unique and loses none of
    them, and the other parts of a day, its window events, key events and
    blog, read as before. *)
Theorem addNote_keeps_the_rest s ts c d :
  NoDup (map TrackerStore.n_timestamp (TrackerStore.notes s)) ->
  NoDup (map TrackerStore.n_timestamp
           (TrackerStore.notes (TrackerStore.addNote ts c d s)))
  /\ incl (map TrackerStore.n_timestamp (TrackerStore.notes s))
       (map TrackerStore.n_timestamp
          (TrackerStore.notes (TrackerStore.addNote ts c d s)))
  /\ forall d',
       TrackerStore.window_events
         (TrackerStore.getDayData (TrackerStore.addNote ts c d s) d')
       = TrackerStore.window_events (TrackerStore.getDayData s d')
       /\ TrackerStore.key_events
            (TrackerStore.getDayData (TrackerStore.addNote ts c d s) d')
          = TrackerStore.key_events (TrackerStore.getDayData s d')
       /\ TrackerStore.blog
            (TrackerStore.getDayData (TrackerStore.addNote ts c d s) d')
          = TrackerStore.blog (TrackerStore.getDayData s d').
Proof.
  intros Hnd. cbn [TrackerStore.notes TrackerStore.addNote].
  destruct (in_dec Z.eq_dec ts
              (map TrackerStore.n_timestamp (TrackerStore.notes s)))
    as [Hin|Hout].
  - rewrite (@upsertNote_timestamps ts c d _ Hin).
    split; [exact Hnd|]. split; [apply incl_refl|]. intros d'. now repeat split.
  - rewrite (@upsertNote_fresh ts c d _ Hout), map_app. simpl.
    split; [|split].
    + apply (Permutation_NoDup (Permutation_cons_append _ ts)).
      now constructor.
    + apply incl_appl, incl_refl.
    + intros d'. now repeat split.
Qed.

Lemma addNote_keeps_the_rest_witness :
  NoDup (map TrackerStore.n_timestamp
           (TrackerStore.notes
              (TrackerStore.addNote 1700 "lunch" 10 store_sample))).
Proof.
  apply (proj1 (@addNote_keeps_the_rest store_sample 1700 "lunch" 10
                  ltac:(repeat constructor; simpl; intuition))).
Defined.

Lemma upsertBlog_first d c rows :
  exists r rest,
    filter (fun r => (TrackerStore.b_logical_date r =? d)%Z)
      (TrackerStore.upsertBlog d c rows) = r :: rest
    /\ TrackerStore.b_content r = c.
Proof.
  induction rows as [|r0 rows IH]; simpl.
  - rewrite Z.eqb_refl. now do 2 eexists.
  - destruct (Z.eqb_spec (TrackerStore.b_logical_date r0) d) as [E|E]; simpl.
    + rewrite E, Z.eqb_refl. now do 2 eexists.
    + destruct (Z.eqb_spec (TrackerStore.b_logical_date r0) d);
        [contradiction|exact IH].
Qed.

Lemma upsertBlog_other d c d' rows :
  d' <> d ->
  filter (fun r => (TrackerStore.b_logical_date r =? d')%Z)
    (TrackerStore.upsertBlog d c rows)
  = filter (fun r => (TrackerStore.b_logical_date r =? d')%Z) rows.
Proof.
  intros Hd. induction rows as [|r0 rows IH]; simpl.
  - destruct (Z.eqb_spec d d'); [congruence|reflexivity].
  - destruct (Z.eqb_spec (TrackerStore.b_logical_date r0) d) as [E|E]; simpl.
    + rewrite E. destruct (Z.eqb_spec d d'); [congruence|reflexivity].
    + now rewrite IH.
Qed.

(** X19: After [saveBlog] the blog of the date reads back as the saved content,
    except that an empty content reads back as no blog; the blogs of the
    other dates and the notes are as before. *)
Theorem saveBlog_reads_back s d c :
  TrackerStore.blog (TrackerStore.getDayData (TrackerStore.saveBlog d c s) d)
  = match c with EmptyString => None | _ => Some c end
  /\ forall d',
       (d' <> d ->
        TrackerStore.blog
          (TrackerStore.getDayData (TrackerStore.saveBlog d c s) d')
        = TrackerStore.blog (TrackerStore.getDayData s d'))
       /\ TrackerStore.day_notes
            (TrackerStore.getDayData (TrackerStore.saveBlog d c s) d')
          = TrackerStore.day_notes (TrackerStore.getDayData s d').
Proof.
  cbn [TrackerStore.getDayData TrackerStore.blog TrackerStore.day_notes].
  unfold TrackerStore.dayBlog.
  cbn [TrackerStore.daily_blog TrackerStore.saveBlog].
  split.
  - destruct (upsertBlog_first d c (TrackerStore.daily_blog s))
      as [r [rest [E Hc]]].
    rewrite E, Hc. now destruct c.
  - intros d'. split; [|reflexivity].
    intros Hd. now rewrite (upsertBlog_other c (TrackerStore.daily_blog s) Hd).
Qed.

Lemma saveBlog_reads_back_witness :
  TrackerStore.blog
    (TrackerStore.getDayData (TrackerStore.saveBlog 11 "" store_sample) 10)
  = TrackerStore.blog (TrackerStore.getDayData store_sample 10).
Proof.
  apply (proj1 (proj2 (saveBlog_reads_back store_sample 11 "") 10%Z)).
  discriminate.
Defined.

(** ** The heatmap *)

Lemma maxKeys_bounds days :
  (1 <= HackingStreak.maxKeys days)%Z
  /\ Forall (fun d => (TrackerDb.total_keys d <= HackingStreak.maxKeys days)%Z)
       days.
Proof.
  unfold HackingStreak.maxKeys.
  assert (H : forall l : list Z,
             (1 <= fold_right Z.max 1 l)%Z
             /\ Forall (fun k => (k <= fold_right Z.max 1 l)%Z) l).
  { induction l as [|k l [IH1 IH2]]; cbn [fold_right];
      [split; [lia|constructor]|].
    split; [lia|]. constructor; [lia|].
    eapply Forall_impl; [|exact IH2]. cbv beta. intros; lia. }
  destruct (H (map TrackerDb.total_keys (rev days))) as [H1 H2].
  split; [exact H1|]. apply Forall_forall. intros d Hd.
  rewrite Forall_forall in H2. apply H2, in_map, in_rev.
  now rewrite rev_involutive.
Qed.

(** X20: With key totals that are not negative, every cell of the heatmap has an
    intensity between 0 and 1. *)
Theorem heatmap_intensity_bounds days :
  Forall (fun d => (0 <= TrackerDb.total_keys d)%Z) days ->
  Forall (fun c => 0 <= HackingStreak.intensity c <= 1)
    (HackingStreak.cells days).
Proof.
  intros Hpos. destruct (maxKeys_bounds days) as [Hm Hle].
  unfold HackingStreak.cells. apply Forall_forall. intros c Hc.
  apply in_map_iff in Hc. destruct Hc as [d [<- Hd]].
  apply in_rev in Hd. rewrite Forall_forall in Hpos, Hle.
  specialize (Hpos d Hd). specialize (Hle d Hd).
  cbn [HackingStreak.intensity].
  assert (Hm' : 0 < inject_Z (HackingStreak.maxKeys days)).
  { change 0 with (inject_Z 0). rewrite <- Zlt_Qlt. lia. }
  split.
  - apply Qle_shift_div_l; [exact Hm'|]. rewrite Qmult_0_l.
    change 0 with (inject_Z 0). rewrite <- Zle_Qle. exact Hpos.
  - apply Qle_shift_div_r; [exact Hm'|]. rewrite Qmult_1_l.
    rewrite <- Zle_Qle. exact Hle.
Qed.

Lemma heatmap_intensity_bounds_witness :
  Forall (fun c => 0 <= HackingStreak.intensity c <= 1)
    (HackingStreak.cells (TrackerDb.getOverview db_sample None None 30)).
Proof.
  apply (@heatmap_intensity_bounds
           (TrackerDb.getOverview db_sample None None 30)).
  repeat constructor; discriminate.
Defined.

Lemma intensity_zero k m :
  (1 <= m)%Z -> (inject_Z k / inject_Z m == 0 <-> k = 0%Z).
Proof.
  intros Hm.
  assert (Hm' : 0 < inject_Z m).
  { change 0 with (inject_Z 0). rewrite <- Zlt_Qlt. lia. }
  split.
  - intros H.
    assert (E : inject_Z k == 0).
    { assert (E' : inject_Z k == inject_Z k / inject_Z m * inject_Z m)
        by (field; lra).
      rewrite E', H. ring. }
    change 0 with (inject_Z 0) in E. now apply (proj1 (inject_Z_injective _ _)) in E.
  - intros ->. unfold Qdiv. change (inject_Z 0) with 0. ring.
Qed.

Lemma full_color x :
  x == 1 -> HackingStreak.getIntensityColor x = "bg-[#D4735E]".
Proof.
  intros H. unfold HackingStreak.getIntensityColor.
  destruct (Qeq_bool x 0) eqn:E0.
  { apply Qeq_bool_eq in E0. rewrite H in E0. discriminate E0. }
  assert (Hle : forall c, c <= 1 -> Qle_bool c x = true).
  { intros c Hc. apply Qle_bool_iff. now rewrite H. }
  rewrite !Hle by discriminate. reflexivity.
Qed.

(** X21: Whatever the totals, a cell is drawn in the empty colour exactly when
    its day has no keys, and a day whose keys reach the maximum of the
    displayed range (at least one key) is drawn in the full colour. *)
Theorem heatmap_colors days :
  Forall
    (fun c =>
       (HackingStreak.cellColor c = "bg-stone-100"
        <-> HackingStreak.keys c = 0%Z)
       /\ (HackingStreak.keys c = HackingStreak.maxKeys days ->
           HackingStreak.cellColor c = "bg-[#D4735E]"))
    (HackingStreak.cells days).
Proof.
  destruct (maxKeys_bounds days) as [Hm _].
  unfold HackingStreak.cells. apply Forall_forall. intros c Hc.
  apply in_map_iff in Hc. destruct Hc as [d [<- _]].
  unfold HackingStreak.cellColor.
  cbn [HackingStreak.intensity HackingStreak.keys].
  pose proof (intensity_zero (TrackerDb.total_keys d) Hm) as Hz.
  split; [split|].
  - unfold HackingStreak.getIntensityColor.
    destruct (Qeq_bool _ 0) eqn:E0.
    + intros _. apply Qeq_bool_eq in E0. now apply Hz.
    + repeat (destruct (negb _); [discriminate|]). discriminate.
  - intros Hk. unfold HackingStreak.getIntensityColor.
    apply Hz in Hk. apply Qeq_eq_bool in Hk. now rewrite Hk.
  - intros Hk. apply full_color. rewrite Hk. field.
    intros E. change 0 with (inject_Z 0) in E.
    apply (proj1 (inject_Z_injective _ _)) in E. lia.
Qed.

Lemma heatmap_colors_witness :
  HackingStreak.cellColor
    {| HackingStreak.date := 10; HackingStreak.keys := 12;
       HackingStreak.intensity := inject_Z 12 / inject_Z 12 |}
  = "bg-[#D4735E]".
Proof.
  pose proof (heatmap_colors (TrackerDb.getOverview db_sample None None 30))
    as H.
  rewrite Forall_forall in H.
  apply (proj2 (H {| HackingStreak.date := 10; HackingStreak.keys := 12;
                     HackingStreak.intensity := inject_Z 12 / inject_Z 12 |}
                  ltac:(simpl; auto))).
  reflexivity.
Defined.

Lemma sorted_rev (A : Type) (R : A -> A -> Prop) l :
  StronglySorted R l -> StronglySorted (fun a b => R b a) (rev l).
Proof.
  induction 1 as [|x l Hs IH Hx]; simpl; [constructor|].
  clear Hs. apply Forall_rev in Hx. revert IH Hx.
  generalize (rev l). intros l' IH Hx.
  induction IH as [|y l' Hs IH' Hy]; simpl.
  - repeat constructor.
  - inversion Hx; subst. constructor; [now apply IH'|].
    apply Forall_app. split; [exact Hy|]. now repeat constructor.
Qed.

(** X22: The heatmap has one cell for each row it is given, in reverse order; fed
    with the rows of [getOverview] it runs from the oldest date to the
    newest. *)
Theorem heatmap_chronological db fromDate toDate limit :
  map HackingStreak.date
    (HackingStreak.cells (TrackerDb.getOverview db fromDate toDate limit))
  = rev (map TrackerDb.logical_date
           (TrackerDb.getOverview db fromDate toDate limit))
  /\ StronglySorted Z.lt
       (map HackingStreak.date
          (HackingStreak.cells
             (TrackerDb.getOverview db fromDate toDate limit))).
Proof.
  assert (E : forall days,
             map HackingStreak.date (HackingStreak.cells days)
             = rev (map TrackerDb.logical_date days)).
  { intros days. unfold HackingStreak.cells.
    rewrite map_map. cbn [HackingStreak.date]. now rewrite map_rev. }
  split; [apply E|]. rewrite E, <- map_rev.
  apply StronglySorted_map.
  apply (sorted_rev
           (R := fun a b =>
                   (TrackerDb.logical_date b < TrackerDb.logical_date a)%Z)).
  unfold TrackerDb.getOverview. apply sorted_firstn, overview_rows_strict.
Qed.

(** ** The Overview page *)

Lemma newer_in_prefix (dates : list Z) n d :
  StronglySorted (fun a b => (b < a)%Z) dates ->
  In d (firstn n dates) ->
  (List.length (filter (fun d' => (d <? d')%Z) dates) < n)%nat.
Proof.
  intros Hs Hin.
  destruct (in_split _ _ Hin) as [pre [post E]].
  pose proof (firstn_le_length n dates) as Hlen.
  rewrite <- (firstn_skipn n dates) in Hs |- *.
  rewrite E, <- app_assoc in Hs |- *. cbn [app] in Hs |- *.
  rewrite (strict_newer_prefix (fun d : Z => d) _ _ _ Hs).
  rewrite E, length_app in Hlen. simpl in Hlen. lia.
Qed.

Lemma card_of_listed_date db d :
  In d (firstn 30 (TrackerDb.getAvailableDates db)) ->
  windowsOfDate db d <> [] ->
  exists s,
    OverviewPage.summaryOf (TrackerDb.getOverview db None None 30) d = Some s
    /\ In s (TrackerDb.getOverview db None None 30)
    /\ TrackerDb.logical_date s = d.
Proof.
  intros Hd Hw.
  assert (Hin : In d (map TrackerDb.logical_date
                        (TrackerDb.getOverview db None None 30))).
  { apply overview_dates_iff. split; [|split; [reflexivity|]].
    - destruct (windowsOfDate db d) as [|w l] eqn:E; [congruence|].
      assert (Hw' : In w (windowsOfDate db d)) by (rewrite E; now left).
      apply filter_In in Hw'. destruct Hw' as [Hw' Hdate].
      apply Z.eqb_eq in Hdate. now exists w.
    - change (Z.to_nat 30) with 30%nat.
      eapply Nat.le_lt_trans;
        [|apply (newer_in_prefix _ _ (getAvailableDates_strict db) Hd)].
      apply NoDup_incl_length.
      + unfold newer_dates. apply NoDup_filter, NoDup_nodup.
      + intros x Hx. unfold newer_dates in Hx.
        apply filter_In in Hx. destruct Hx as [Hx Hlt].
        apply filter_In. split; [|exact Hlt].
        apply (proj1 (distinct_dates_In _ _)), in_map_iff in Hx.
        destruct Hx as [w [<- Hw']]. apply filter_In in Hw'.
        apply getAvailableDates_In. left. exists w. intuition. }
  unfold OverviewPage.summaryOf.
  destruct (find _ _) as [s|] eqn:Ef.
  - apply find_some in Ef. destruct Ef as [Hs Hdate].
    apply Z.eqb_eq in Hdate. now exists s.
  - exfalso. apply in_map_iff in Hin. destruct Hin as [s [Hdate Hs]].
    pose proof (find_none _ _ Ef s Hs) as Hf. cbv beta in Hf.
    apply Z.eqb_neq in Hf. contradiction.
Qed.

(** X23: On the cards of "Recent Days", a date with window events shows the sum
    of its key counts, and a date without window events shows 0 keys,
    whatever its key events add up to. *)
Theorem recent_days_card_keys db d k :
  In (d, k) (OverviewPage.loadedCards db) ->
  (windowsOfDate db d <> [] /\ k = keysOfDate db d)
  \/ (windowsOfDate db d = [] /\ k = 0%Z).
Proof.
  unfold OverviewPage.loadedCards, OverviewPage.recentDays.
  change (Server.limit_of_query (Some "30")) with 30%Z.
  intros H. apply in_map_iff in H. destruct H as [d' [E Hd]].
  inversion E; subst d' k. clear E.
  destruct (windowsOfDate db d) as [|w l] eqn:Ew.
  - right. split; [reflexivity|]. unfold OverviewPage.cardKeys.
    destruct (OverviewPage.summaryOf _ d) as [s|] eqn:Ef; [|reflexivity].
    exfalso. apply find_some in Ef. destruct Ef as [Hs Hdate].
    apply Z.eqb_eq in Hdate. unfold TrackerDb.getOverview in Hs.
    apply firstn_incl, overview_rows_dates in Hs.
    destruct Hs as [w [Hw Hdw]].
    assert (Hin : In w (windowsOfDate db d)).
    { apply filter_In. split; [exact Hw|]. apply Z.eqb_eq. congruence. }
    rewrite Ew in Hin. contradiction.
  - left. split; [discriminate|].
    assert (Hne : windowsOfDate db d <> []) by (rewrite Ew; discriminate).
    destruct (card_of_listed_date db d Hd Hne) as [s [Ef [Hs Hdate]]].
    unfold OverviewPage.cardKeys. rewrite Ef.
    pose proof (overview_row_facts db None None 30) as Hrows.
    rewrite Forall_forall in Hrows.
    destruct (Hrows s Hs) as [Hk _]. now rewrite Hk, Hdate.
Qed.

Lemma recent_days_card_keys_witness :
  (windowsOfDate db_sample 13 <> [] /\ 0%Z = keysOfDate db_sample 13)
  \/ (windowsOfDate db_sample 13 = [] /\ 0%Z = 0%Z).
Proof.
  apply (@recent_days_card_keys db_sample 13 0). simpl. auto.
Defined.

Lemma Zsum_nonneg l :
  Forall (fun k => (0 <= k)%Z) l -> (0 <= fold_right Z.add 0%Z l)%Z.
Proof. induction 1; simpl; lia. Qed.

Lemma Zsum_zero l :
  Forall (fun k => (0 <= k)%Z) l ->
  (fold_right Z.add 0%Z l = 0%Z <-> Forall (fun k => k = 0%Z) l).
Proof.
  induction 1 as [|k l Hk Hl IH]; simpl.
  - split; [constructor|reflexivity].
  - pose proof (Zsum_nonneg Hl). split.
    + intros E. constructor; [lia|]. apply IH. lia.
    + intros E. inversion E as [|? ? Ek El]; subst.
      apply IH in El. lia.
Qed.

(** X24: The three figures at the top of the Overview page: the average is the
    mean of the totals rounded to the nearest integer, and, when no total is
    negative, no day counts as active exactly when the keystroke total is
    0. *)
Theorem overview_page_figures overview :
  (overview <> [] ->
   inject_Z (OverviewPage.totalKeystrokes overview)
   / inject_Z (Z.of_nat (List.length overview)) - (1 # 2)
   < inject_Z (OverviewPage.avgKeystrokes overview)
   <= inject_Z (OverviewPage.totalKeystrokes overview)
      / inject_Z (Z.of_nat (List.length overview)) + (1 # 2))
  /\ (OverviewPage.activeDays overview <= List.length overview)%nat
  /\ (Forall (fun d => (0 <= TrackerDb.total_keys d)%Z) overview ->
      (OverviewPage.activeDays overview = 0%nat
       <-> OverviewPage.totalKeystrokes overview = 0%Z)).
Proof.
  split; [|split].
  - intros Hne. unfold OverviewPage.avgKeystrokes.
    destruct overview as [|d l]; [congruence|].
    split; [apply Math_round_lower|apply Math_round_upper].
  - apply filter_length_le.
  - intros Hpos. unfold OverviewPage.totalKeystrokes, OverviewPage.activeDays.
    rewrite fold_left_Zadd, Z.add_0_l.
    assert (Hpos' : Forall (fun k => (0 <= k)%Z)
                      (map TrackerDb.total_keys overview)).
    { apply Forall_forall. intros k Hk. apply in_map_iff in Hk.
      destruct Hk as [d [<- Hd]]. rewrite Forall_forall in Hpos.
      now apply Hpos. }
    rewrite (Zsum_zero Hpos'). clear Hpos'.
    induction Hpos as [|d l Hd _ IH]; simpl.
    + split; [constructor|reflexivity].
    + destruct (Z.ltb_spec 0 (TrackerDb.total_keys d)); simpl.
      * split; [discriminate|]. intros E. inversion E; subst. lia.
      * rewrite IH. split.
        -- intros E. constructor; [lia|exact E].
        -- intros E. now inversion E.
Qed.

Lemma overview_page_figures_witness :
  OverviewPage.activeDays (TrackerDb.getOverview db_idle None None 30) = 0%nat
  <-> OverviewPage.totalKeystrokes (TrackerDb.getOverview db_idle None None 30)
      = 0%Z.
Proof.
  apply (proj2 (proj2 (overview_page_figures
                         (TrackerDb.getOverview db_idle None None 30)))).
  repeat constructor; discriminate.
Defined.

(** ** Moving between days *)

Lemma findIndex_nonneg dates date :
  (-1 <= DayView.findIndex dates date)%Z.
Proof.
  induction dates as [|d dates IH]; simpl; [lia|].
  destruct (d =? date)%Z; [lia|].
  destruct (Z.ltb_spec (DayView.findIndex dates date) 0); lia.
Qed.

Lemma findIndex_absent dates date :
  ~ In date dates -> DayView.findIndex dates date = (-1)%Z.
Proof.
  induction dates as [|d dates IH]; simpl; intros H; [reflexivity|].
  destruct (Z.eqb_spec d date) as [E|E]; [exfalso; auto|].
  rewrite IH by auto. reflexivity.
Qed.

Lemma findIndex_found pre date post :
  ~ In date pre ->
  DayView.findIndex (pre ++ date :: post) date
  = Z.of_nat (List.length pre).
Proof.
  induction pre as [|d pre IH]; intros H.
  - simpl. now rewrite Z.eqb_refl.
  - cbn [app DayView.findIndex List.length].
    destruct (Z.eqb_spec d date) as [E|E]; [exfalso; apply H; now left|].
    rewrite IH by (intros Hin; apply H; now right).
    destruct (Z.ltb_spec (Z.of_nat (List.length pre)) 0); lia.
Qed.

(** X25: A date that is not in the list has no next day, and its previous day is
    the first date of the list, the newest one. *)
Theorem day_navigation_unknown_date dates date :
  ~ In date dates ->
  DayView.nextDate dates date = None
  /\ DayView.prevDate dates date = hd_error dates.
Proof.
  intros H. unfold DayView.nextDate, DayView.prevDate.
  rewrite (findIndex_absent _ _ H). split; [reflexivity|].
  destruct dates as [|d dates]; [reflexivity|].
  cbn [List.length]. rewrite Nat2Z.inj_succ.
  destruct (Z.ltb_spec (-1) (Z.succ (Z.of_nat (List.length dates)) - 1));
    [reflexivity|lia].
Qed.

Lemma day_navigation_unknown_date_witness :
  DayView.prevDate (TrackerDb.getAvailableDates db_sample) 99 = Some 13%Z.
Proof.
  apply (proj2 (@day_navigation_unknown_date
                  (TrackerDb.getAvailableDates db_sample) 99
                  ltac:(simpl; intuition discriminate))).
Defined.

Lemma sorted_suffix (A : Type) (R : A -> A -> Prop) l1 l2 :
  StronglySorted R (l1 ++ l2) -> StronglySorted R l2.
Proof.
  induction l1 as [|x l1 IH]; simpl; intros H; [exact H|].
  inversion H; subst. now apply IH.
Qed.

Lemma at_index_nat dates (n : nat) :
  DayView.at_index dates (Z.of_nat n) = nth_error dates n.
Proof.
  unfold DayView.at_index.
  destruct (Z.ltb_spec (Z.of_nat n) 0); [lia|]. now rewrite Nat2Z.id.
Qed.

Lemma prevDate_in_list pre date post :
  ~ In date pre ->
  DayView.prevDate (pre ++ date :: post) date = hd_error post.
Proof.
  intros H. unfold DayView.prevDate. rewrite (@findIndex_found pre date post H).
  rewrite length_app.
  destruct post as [|p post]; cbn [List.length hd_error];
    match goal with
    | |- context [(?a <? ?b)%Z] => destruct (Z.ltb_spec a b)
    end; try lia; try reflexivity.
  replace (Z.of_nat (List.length pre) + 1)%Z
    with (Z.of_nat (S (List.length pre))) by lia.
  rewrite at_index_nat, nth_error_app2 by lia.
  replace (S (List.length pre) - List.length pre)%nat with 1%nat by lia.
  reflexivity.
Qed.

Lemma nextDate_in_list pre date post :
  ~ In date pre ->
  DayView.nextDate (pre ++ date :: post) date
  = match rev pre with [] => None | n :: _ => Some n end.
Proof.
  intros H. unfold DayView.nextDate. rewrite (@findIndex_found pre date post H).
  destruct pre as [|x pre'] using rev_ind; [reflexivity|]. clear IHpre'.
  rewrite rev_app_distr. cbn [rev app].
  rewrite length_app. cbn [List.length].
  match goal with
  | |- context [(?a <? ?b)%Z] => destruct (Z.ltb_spec a b)
  end; [|lia].
  replace (Z.of_nat (List.length pre' + 1) - 1)%Z
    with (Z.of_nat (List.length pre')) by lia.
  rewrite at_index_nat, <- app_assoc, nth_error_app2 by lia.
  now rewrite Nat.sub_diag.
Qed.

Lemma day_navigation_sorted dates date :
  StronglySorted (fun a b => (b < a)%Z) dates ->
  In date dates ->
  match DayView.prevDate dates date with
  | Some p =>
      (p < date)%Z /\ In p dates
      /\ forall x, In x dates -> (x < date)%Z -> (x <= p)%Z
  | None => forall x, In x dates -> (date <= x)%Z
  end
  /\ match DayView.nextDate dates date with
     | Some n =>
         (date < n)%Z /\ In n dates
         /\ forall x, In x dates -> (date < x)%Z -> (n <= x)%Z
     | None => forall x, In x dates -> (x <= date)%Z
     end.
Proof.
  intros Hs Hin. destruct (in_split _ _ Hin) as [pre [post E]]. subst dates.
  assert (Hpre : forall x, In x pre -> (date < x)%Z).
  { intros x Hx.
    apply (@StronglySorted_app_inv _ _ pre (date :: post) x date Hs Hx).
    now left. }
  assert (Hnot : ~ In date pre).
  { intros Hd. apply Hpre in Hd. lia. }
  pose proof (@sorted_suffix _ _ pre (date :: post) Hs) as Hs2.
  inversion Hs2 as [|? ? Hs3 Hpost]; subst.
  rewrite Forall_forall in Hpost.
  rewrite (@prevDate_in_list pre date post Hnot),
    (@nextDate_in_list pre date post Hnot).
  split.
  - destruct post as [|p post]; cbn [hd_error].
    + intros x Hx. apply in_app_or in Hx.
      destruct Hx as [Hx|[<-|[]]]; [apply Hpre in Hx|]; lia.
    + split; [apply Hpost; now left|].
      split; [apply in_or_app; right; right; now left|].
      intros x Hx Hlt. apply in_app_or in Hx.
      destruct Hx as [Hx|[<-|[<-|Hx]]];
        [apply Hpre in Hx; lia|lia|lia|].
      inversion Hs3 as [|? ? _ Hp]; subst.
      rewrite Forall_forall in Hp. specialize (Hp x Hx). lia.
  - destruct pre as [|n pre'] using rev_ind.
    + cbn [rev]. intros x [<-|Hx]; [lia|]. apply Hpost in Hx. lia.
    + clear IHpre'. rewrite rev_app_distr. cbn [rev app].
      split; [apply Hpre, in_or_app; right; now left|].
      split; [apply in_or_app; left; apply in_or_app; right; now left|].
      intros x Hx Hlt. apply in_app_or in Hx.
      destruct Hx as [Hx|[<-|Hx]]; [|lia|apply Hpost in Hx; lia].
      apply in_app_or in Hx. destruct Hx as [Hx|[<-|[]]]; [|lia].
      rewrite <- app_assoc in Hs.
      pose proof (@StronglySorted_app_inv _ _ pre' ([n] ++ date :: post)
                    x n Hs Hx ltac:(now left)) as Hn.
      cbv beta in Hn. lia.
Qed.

(** X26: From a date that [getAvailableDates] lists, "previous day" leads to the
    newest listed date that is older and "next day" to the oldest listed
    date that is newer; each is missing exactly when no such date is
    listed. *)
Theorem day_navigation_adjacent db date :
  In date (TrackerDb.getAvailableDates db) ->
  match DayView.prevDate (TrackerDb.getAvailableDates db) date with
  | Some p =>
      (p < date)%Z /\ In p (TrackerDb.getAvailableDates db)
      /\ forall x, In x (TrackerDb.getAvailableDates db) ->
                   (x < date)%Z -> (x <= p)%Z
  | None => forall x, In x (TrackerDb.getAvailableDates db) -> (date <= x)%Z
  end
  /\ match DayView.nextDate (TrackerDb.getAvailableDates db) date with
     | Some n =>
         (date < n)%Z /\ In n (TrackerDb.getAvailableDates db)
         /\ forall x, In x (TrackerDb.getAvailableDates db) ->
                      (date < x)%Z -> (n <= x)%Z
     | None => forall x, In x (TrackerDb.getAvailableDates db) -> (x <= date)%Z
     end.
Proof.
  intros Hin. apply day_navigation_sorted; [|exact Hin].
  apply getAvailableDates_strict.
Qed.

Lemma day_navigation_adjacent_witness :
  match DayView.prevDate (TrackerDb.getAvailableDates db_sample) 12 with
  | Some p =>
      (p < 12)%Z /\ In p (TrackerDb.getAvailableDates db_sample)
      /\ forall x, In x (TrackerDb.getAvailableDates db_sample) ->
                   (x < 12)%Z -> (x <= p)%Z
  | None => forall x, In x (TrackerDb.getAvailableDates db_sample) -> (12 <= x)%Z
  end.
Proof.
  apply (proj1 (@day_navigation_adjacent db_sample 12
                  ltac:(simpl; auto))).
Defined.

(** ** Reading the limit *)

Lemma leadingDigits_uint d acc seen :
  Server.leadingDigits (DecimalString.NilEmpty.string_of_uint d) acc seen
  = match d with
    | Decimal.Nil => if seen then Some acc else None
    | _ => Some (digitsValue d acc)
    end.
Proof.
  revert acc seen.
  induction d as [|d IH|d IH|d IH|d IH|d IH|d IH|d IH|d IH|d IH|d IH];
    intros acc seen; [reflexivity|..];
    cbn [DecimalString.NilEmpty.string_of_uint Server.leadingDigits];
    match goal with
    | |- context [JsObject.digit ?c] =>
        let v := eval vm_compute in (JsObject.digit c) in
        change (JsObject.digit c) with v
    end;
    cbv iota beta; rewrite IH; cbn [digitsValue];
    rewrite ?Z.add_0_r; now destruct d.
Qed.

Lemma digitsValue_of_lu d d' :
  digitsValue d (Z.of_N (DecimalPos.Unsigned.of_lu d'))
  = Z.of_N (DecimalPos.Unsigned.of_lu (Decimal.revapp d d')).
Proof.
  revert d'.
  induction d as [|d IH|d IH|d IH|d IH|d IH|d IH|d IH|d IH|d IH|d IH];
    intros d'; [reflexivity|..];
    cbn [digitsValue Decimal.revapp]; rewrite <- IH; f_equal;
    cbn [DecimalPos.Unsigned.of_lu]; lia.
Qed.

Lemma digitsValue_of_uint d : digitsValue d 0 = Z.of_uint d.
Proof.
  unfold Z.of_uint. rewrite DecimalPos.Unsigned.of_uint_alt.
  apply (digitsValue_of_lu d Decimal.Nil).
Qed.

(** A byte below 128 that is no white space starts no white space. *)
Lemma trimStart_ascii c r :
  Server.isWhite c = false -> (N_of_ascii c <? 128)%N = true ->
  Server.trimStart (String c r) = String c r.
Proof.
  intros Hw Ha. cbn [Server.trimStart]. rewrite Hw.
  destruct c as [[] [] [] [] [] [] [] []]; try discriminate Ha;
    destruct r as [|c2 [|c3 r3]]; reflexivity.
Qed.

Lemma parseInt10_digit_first c r k :
  JsObject.digit c = Some k ->
  Server.parseInt10 (String c r) = Server.leadingDigits (String c r) 0 false.
Proof.
  intros Hk. unfold Server.parseInt10.
  rewrite trimStart_ascii;
    destruct c as [[] [] [] [] [] [] [] []]; try discriminate; reflexivity.
Qed.

Lemma string_of_uint_first d :
  d <> Decimal.Nil ->
  exists c r k,
    DecimalString.NilEmpty.string_of_uint d = String c r
    /\ JsObject.digit c = Some k.
Proof.
  destruct d; [congruence|..]; intros _;
    cbn [DecimalString.NilEmpty.string_of_uint];
    do 3 eexists; (split; [reflexivity|vm_compute; reflexivity]).
Qed.

Lemma parseInt10_uint d :
  d <> Decimal.Nil ->
  Server.parseInt10 (DecimalString.NilEmpty.string_of_uint d)
  = Some (Z.of_uint d).
Proof.
  intros Hd. destruct (string_of_uint_first Hd) as [c [r [k [E Hk]]]].
  rewrite E, (@parseInt10_digit_first c r k Hk), <- E, leadingDigits_uint.
  rewrite digitsValue_of_uint. now destruct d.
Qed.

Lemma parseInt10_show n : Server.parseInt10 (Format.show n) = Some n.
Proof.
  unfold Format.show. rewrite <- (DecimalZ.of_to n) at 2.
  destruct n as [|p|p]; cbn [Z.to_int Z.of_int].
  - reflexivity.
  - unfold DecimalString.NilZero.string_of_int,
      DecimalString.NilZero.string_of_uint.
    pose proof (DecimalPos.Unsigned.to_uint_nonnil p) as Hp.
    rewrite <- (parseInt10_uint Hp).
    now destruct (Pos.to_uint p).
  - unfold DecimalString.NilZero.string_of_int,
      DecimalString.NilZero.string_of_uint.
    pose proof (DecimalPos.Unsigned.to_uint_nonnil p) as Hp.
    assert (E : (match Pos.to_uint p with
                 | Decimal.Nil => "0"
                 | _ => DecimalString.NilEmpty.string_of_uint (Pos.to_uint p)
                 end)
                = DecimalString.NilEmpty.string_of_uint (Pos.to_uint p))
      by (now destruct (Pos.to_uint p)).
    rewrite E. unfold Server.parseInt10.
    rewrite trimStart_ascii by reflexivity.
    rewrite leadingDigits_uint, digitsValue_of_uint.
    now destruct (Pos.to_uint p).
Qed.

(** X27: For an integer [n] up to 2^53 in magnitude, where the parsed number
    is exact, [parseInt(.., 10)] gives [n] back from its decimal numeral;
    for every integer [n], the limit which the route computes from the
    numeral is min(max(n, 1), 365), with 30 for [n = 0]; so every limit from
    1 to 365 is passed on unchanged. *)
Theorem limit_numeral_read_back n :
  ((Z.abs n <= 2 ^ 53)%Z -> Server.parseInt10 (Format.show n) = Some n)
  /\ Server.limit_of_query (Some (Format.show n))
     = Z.min (Z.max (if (n =? 0)%Z then 30 else n) 1) 365
  /\ ((1 <= n <= 365)%Z ->
      Server.limit_of_query (Some (Format.show n)) = n).
Proof.
  pose proof (parseInt10_show n) as Hp.
  assert (Hl : Server.limit_of_query (Some (Format.show n))
               = Z.min (Z.max (if (n =? 0)%Z then 30 else n) 1) 365).
  { unfold Server.limit_of_query.
    destruct (Format.show n) as [|c r] eqn:E; [discriminate Hp|].
    rewrite Hp. now destruct n. }
  split; [intros _; exact Hp|]. split; [exact Hl|].
  intros Hn. rewrite Hl.
  destruct (Z.eqb_spec n 0); lia.
Qed.

Lemma limit_numeral_read_back_witness :
  Server.parseInt10 (Format.show 365) = Some 365%Z
  /\ Server.limit_of_query (Some (Format.show 30)) = 30%Z.
Proof.
  split.
  - apply (proj1 (limit_numeral_read_back 365)). vm_compute. discriminate.
  - apply (proj2 (proj2 (limit_numeral_read_back 30))). lia.
Defined.

(** X28: [getDayData] returns the key events and the notes recorded for the date,
    each once, in the order of their timestamps. *)
Theorem getDayData_keys_and_notes_ordered s logicalDate :
  Permutation
    (TrackerStore.key_events (TrackerStore.getDayData s logicalDate))
    (map (fun k => {| TrackerStore.ke_timestamp := TrackerDb.k_timestamp k;
                      TrackerStore.key_count := TrackerDb.k_key_count k |})
       (filter (fun k => (TrackerDb.k_logical_date k =? logicalDate)%Z)
          (TrackerDb.key_events (TrackerStore.events s))))
  /\ StronglySorted
       (fun a b => (TrackerStore.ke_timestamp a <= TrackerStore.ke_timestamp b)%Z)
       (TrackerStore.key_events (TrackerStore.getDayData s logicalDate))
  /\ Permutation
       (TrackerStore.day_notes (TrackerStore.getDayData s logicalDate))
       (map (fun r => {| TrackerStore.note_timestamp :=
                           TrackerStore.n_timestamp r;
                         TrackerStore.content := TrackerStore.n_content r |})
          (filter (fun r => (TrackerStore.n_logical_date r =? logicalDate)%Z)
             (TrackerStore.notes s)))
  /\ StronglySorted
       (fun a b =>
          (TrackerStore.note_timestamp a <= TrackerStore.note_timestamp b)%Z)
       (TrackerStore.day_notes (TrackerStore.getDayData s logicalDate)).
Proof.
  cbn [TrackerStore.getDayData TrackerStore.key_events TrackerStore.day_notes].
  unfold TrackerStore.dayKeyEvents, TrackerStore.dayNotes.
  split; [|split; [|split]].
  - apply Permutation_map, order_asc_perm.
  - apply StronglySorted_map. cbn [TrackerStore.ke_timestamp].
    apply (order_asc_sorted TrackerDb.k_timestamp).
  - apply Permutation_map, order_asc_perm.
  - apply StronglySorted_map. cbn [TrackerStore.note_timestamp].
    apply (order_asc_sorted TrackerStore.n_timestamp).
Qed.
